(** * The quality validation driver (quality/src/testdriver/validate_quality.cpp)

    A shallow embedding of [runQuality], [usage] and [main], with the
    declarations they rely on, followed by the properties of the batch
    evaluation harness.

    Processes are modelled by the way they end ([termination]); the file
    system is a finite map from paths to text files, a text file being the
    list of its lines; what a process prints on [cerr] and the calls it makes
    to its collaborators are recorded in order. *)

From Stdlib Require Import ZArith Ascii String DecimalString.
From Stdlib Require DecimalZ DecimalPos.
From stdpp Require Import gmap strings list fin_maps.

Open Scope Z_scope.

(** ** Return codes (five/src/include/five_structs.h) *)

(** [enum class ReturnCode], the only declaration of the return-code taxonomy
    among the headers at hand. *)
Inductive ReturnCode :=
| Success | UnknownError | ConfigError | RefuseInput | ExtractError
| ParseError | TemplateCreationError | VerifTemplateError
| FaceDetectionError | NumDataError | TemplateFormatError | EnrollDirError
| InputLocationError | MemoryError | NotImplemented | VendorError.

#[global] Instance ReturnCode_eq_dec : EqDecision ReturnCode.
Proof. solve_decision. Defined.

(** The enumerators' values: [static_cast<std::underlying_type<ReturnCode>::type>]. *)
Definition underlying (rc : ReturnCode) : Z :=
  match rc with
  | Success => 0 | UnknownError => 1 | ConfigError => 2 | RefuseInput => 3
  | ExtractError => 4 | ParseError => 5 | TemplateCreationError => 6
  | VerifTemplateError => 7 | FaceDetectionError => 8 | NumDataError => 9
  | TemplateFormatError => 10 | EnrollDirError => 11
  | InputLocationError => 12 | MemoryError => 13 | NotImplemented => 14
  | VendorError => 15
  end.

(** [operator<<(std::ostream&, const ReturnCode&)]. *)
Definition ReturnCode_text (rc : ReturnCode) : string :=
  match rc with
  | Success => "Success"
  | UnknownError => "Unknown Error"
  | ConfigError => "Error reading configuration files"
  | RefuseInput => "Elective refusal to process the input"
  | ExtractError => "Involuntary failure to process the image"
  | ParseError => "Cannot parse the input data"
  | TemplateCreationError => "Elective refusal to produce a template"
  | VerifTemplateError =>
      "Either or both of the input templates were result of failed feature extraction"
  | FaceDetectionError => "Unable to detect a face in the image"
  | NumDataError => "Number of input images not supported"
  | TemplateFormatError => "Template file is an incorrect format or defective"
  | EnrollDirError => "An operation on the enrollment directory failed"
  | InputLocationError =>
      "Cannot locate the input data - the input files or names seem incorrect"
  | MemoryError => "Memory allocation failed (e.g. out of memory)"
  | NotImplemented => "Function is not implemented"
  | VendorError => "Vendor-defined error"
  end.

(** [struct ReturnStatus]. *)
Record ReturnStatus := { code : ReturnCode; info : string }.

(** [ReturnStatus()], the default constructor. *)
Definition ReturnStatus_default : ReturnStatus :=
  {| code := UnknownError; info := "" |}.

(** [struct BoundingBox]: four [int16_t]. *)
Record BoundingBox := { xleft : Z; ytop : Z; width : Z; height : Z }.

(** [BoundingBox()]. *)
Definition BoundingBox_default : BoundingBox :=
  {| xleft := -1; ytop := -1; width := -1; height := -1 |}.

(** ** Images (five/src/include/five_structs.h) *)

(** [int] has 32 bits: the bounds of the type in which [uint16_t] and
    [uint8_t] operands are multiplied after integral promotion. *)
Definition INT_MAX : Z := 2147483647.
Definition INT_MIN : Z := -2147483648.

(** The product of two [int]; signed overflow is undefined behaviour, here
    [None]. *)
Definition int_mul (a b : Z) : option Z :=
  if decide (INT_MIN ≤ a * b ≤ INT_MAX) then Some (a * b) else None.

Module FIVE.

(** [enum class Image::ImageDescription]. *)
Inductive ImageDescription :=
| Unknown | StillISO | StillMugshot | StillPhotojournalism | StillWild
| VideoLongRange | VideoPhotojournalism | VideoPassiveObservation
| VideoChokepoint | VideoElevatedPlatform.

(** [enum class Image::Illuminant]. *)
Inductive Illuminant := Unspecified | Visible.

(** [struct Image]: [width] and [height] are [uint16_t], [depth] is
    [uint8_t]; [data] is the managed pointer to the raster, null when it was
    not set. *)
Record Image := {
  width : Z;
  height : Z;
  depth : Z;
  data : option (list Z);
  description : ImageDescription;
  illuminant : Illuminant
}.

(** [Image()]. *)
Definition Image_default : Image :=
  {| width := 0; height := 0; depth := 24; data := None;
     description := Unknown; illuminant := Visible |}.

(** The fields have values of their types. *)
Definition well_typed (i : Image) : Prop :=
  0 ≤ width i < 65536 ∧ 0 ≤ height i < 65536 ∧ 0 ≤ depth i < 256.

(** [Image::size()] (line 107): [width * height * (depth / 8)], computed in
    [int] from left to right and converted to [size_t] on return. *)
Definition size (i : Image) : option Z :=
  match int_mul (width i) (height i) with
  | Some wh => int_mul wh (depth i ÷ 8)
  | None => None
  end.

End FIVE.

(** ** Text *)

(** [std::to_string] and [operator<<] on an integer: decimal, with a sign
    for negative values. *)
Definition to_string (z : Z) : string := NilZero.string_of_int (Z.to_int z).

(** The characters [std::isspace] accepts in the "C" locale. *)
Definition isspace (c : ascii) : bool :=
  bool_decide (c = " "%char) || bool_decide (c = "009"%char)
  || bool_decide (c = "010"%char) || bool_decide (c = "011"%char)
  || bool_decide (c = "012"%char) || bool_decide (c = "013"%char).

(** The tokens [operator>>(istream&, string&)] extracts one after the other
    from a piece of text: maximal runs of characters that are not white
    space. [cur] is the token being read. *)
Fixpoint words_from (cur : string) (s : string) : list string :=
  match s with
  | EmptyString => if bool_decide (cur = "") then [] else [cur]
  | String c s' =>
      if isspace c
      then (if bool_decide (cur = "") then words_from "" s'
            else cur :: words_from "" s')
      else words_from (cur +:+ String c "") s'
  end.

Definition words (s : string) : list string := words_from "" s.

(** A manifest record: what one [inputStream >> id >> imagePath >> desc]
    extracts. *)
Record ManifestRecord := { id : string; imagePath : string; desc : string }.

(** Successive extractions of three tokens; the loop condition fails as soon
    as fewer than three tokens are left. *)
Fixpoint triples (ts : list string) : list ManifestRecord :=
  match ts with
  | a :: b :: c :: rest => {| id := a; imagePath := b; desc := c |} :: triples rest
  | _ => []
  end.

(** The records an input stream delivers from a text file. *)
Definition read_records (lines : list string) : list ManifestRecord :=
  triples (concat (words <$> lines)).

(** ** Processes and files *)

(** How a process ends. *)
Inductive termination :=
| Return (status : Z)      (* the function returned this value *)
| Exit (status : Z)        (* [exit(status)] *)
| Signal (sig : Z)         (* killed by a signal *)
| Undefined.               (* undefined behaviour *)

#[global] Instance termination_eq_dec : EqDecision termination.
Proof. solve_decision. Defined.

(** [SIGTERM] of <csignal> and [EXIT_FAILURE] of <cstdlib> on Linux. *)
Definition SIGTERM : Z := 15.
Definition EXIT_FAILURE : Z := 1.

(** What [wait] stores in [stat_val], seen through the macros of
    <sys/wait.h>. *)
Inductive wait_status :=
| W_EXITED (status : Z)    (* WIFEXITED, with WEXITSTATUS *)
| W_SIGNALED (sig : Z)     (* WIFSIGNALED, with WTERMSIG *)
| W_OTHER.                 (* neither *)

(** [remove(path)] together with the message printed when it fails. *)
Definition remove (path : string) (fs : gmap string (list string))
    (cerr : list string) : gmap string (list string) * list string :=
  match fs !! path with
  | Some _ => (delete path fs, cerr)
  | None => (fs, cerr ++ ["Error deleting file: " +:+ path])
  end.

(** ** Declarations of util.h, frvt_structs.h and frvt_quality.h

    These headers are not among the sources at hand; what the driver takes
    from them, and from the system it runs on, is an [Environment], and the
    implementation under test an [Interface]. *)

(** [struct ImageQualityAssessment] (frvt_quality.h): the values of the
    quality measures that the implementation assessed, and the bounding box
    of the face. *)
Record ImageQualityAssessment (QualityMeasure double : Type)
    `{Countable QualityMeasure} := {
  qAssessments : gmap QualityMeasure double;
  boundingBox : BoundingBox
}.

Arguments qAssessments {_ _ _ _} _.
Arguments boundingBox {_ _ _ _} _.
Arguments Build_ImageQualityAssessment {_ _ _ _} _ _.

Class Environment := {
  (** The driver's exit outcomes (util.h). *)
  SUCCESS : Z;
  FAILURE : Z;
  NOT_IMPLEMENTED : Z;
  (** [enum class Action] and the table [mapStringToAction], read with
      [operator[]] (util.h). *)
  Action : Type;
  Action_eq_dec :: EqDecision Action;
  VectorQ : Action;
  mapStringToAction : string → Action;
  (** [struct Image], its [description] member and the table
      [mapStringToImgLabel]; [readImage] (util.h) yields the decoded image,
      or fails. *)
  Image : Type;
  ImageLabel : Type;
  mapStringToImgLabel : string → ImageLabel;
  set_description : Image → ImageLabel → Image;
  readImage : string → option Image;
  (** [enum class QualityMeasure] (frvt_quality.h): [measures] lists the
      values that [for (QualityMeasure e = QualityMeasure::Begin; e !=
      QualityMeasure::End; ++e)] visits, in that order, and [measure_name] is
      what [operator<<] prints for one of them. *)
  QualityMeasure : Type;
  QualityMeasure_eq_dec :: EqDecision QualityMeasure;
  QualityMeasure_countable :: Countable QualityMeasure;
  measures : list QualityMeasure;
  measure_name : QualityMeasure → string;
  (** The value of a quality measure is a [double]; [double_to_string] is
      [std::to_string] on it. *)
  double : Type;
  double_to_string : double → string;
  (** [atoi] of <cstdlib>. *)
  atoi : string → Z;
  (** Whether an [ofstream] can be opened on a path. *)
  can_create : string → bool;
  (** The name that [splitInputFile] gives to shard [i] in the output
      directory. *)
  shardPath : string → nat → string
}.

(** The object behind [implPtr] (class [Interface], frvt_quality.h). [Impl]
    is its state; [vectorQuality] takes the image and the assessment object
    passed by reference, and yields the new state, the status and the
    assessment object as the call leaves it. *)
Class Interface `{Environment} := {
  Impl : Type;
  getImplementation : Impl;
  initialize : Impl → string → Impl * ReturnStatus;
  vectorQuality :
    Impl → Image → ImageQualityAssessment QualityMeasure double
    → Impl * ReturnStatus * ImageQualityAssessment QualityMeasure double
}.

Section Model.

Context {Env : Environment} {Itf : Interface}.

(** [ImageQualityAssessment()]. *)
Definition ImageQualityAssessment_default
    : ImageQualityAssessment QualityMeasure double :=
  {| qAssessments := ∅; boundingBox := BoundingBox_default |}.

(** ** runQuality *)

(** One call of [vectorQuality] made by the loop, as seen from outside: the
    record it was made for, the status it returned and the assessment. *)
Record Call := {
  call_record : ManifestRecord;
  call_status : ReturnStatus;
  call_assessment : ImageQualityAssessment QualityMeasure double
}.

(** The header line (lines 50-54). *)
Definition header_line : string :=
  "id image returnCode bb_xleft bb_ytop bb_width bb_height "
  +:+ String.concat "" ((λ e, measure_name e +:+ " ") <$> measures).

(** The value printed for measure [e] (lines 86-87). *)
Definition measure_cell (detection : gmap QualityMeasure double)
    (e : QualityMeasure) : string :=
  match detection !! e with
  | Some v => double_to_string v
  | None => "NA"
  end.

(** The line written for one record (lines 78-89). *)
Definition data_row (r : ManifestRecord) (ret : ReturnStatus)
    (assessments : ImageQualityAssessment QualityMeasure double) : string :=
  let detection := qAssessments assessments in
  let bb := boundingBox assessments in
  id r +:+ " " +:+ imagePath r +:+ " " +:+ to_string (underlying (code ret)) +:+ " "
  +:+ (to_string (xleft bb) +:+ " " +:+ to_string (ytop bb) +:+ " "
       +:+ to_string (width bb) +:+ " " +:+ to_string (height bb))
  +:+ String.concat "" ((λ e, " " +:+ measure_cell detection e) <$> measures).

(** The variables that live across the iterations of the loop: the
    implementation's state, [ret], the lines sent to [logStream] and to
    [cerr], and the calls made so far. *)
Record LoopState := {
  impl : Impl;
  ret : ReturnStatus;
  logStream : list string;
  cerr : list string;
  calls : list Call
}.

(** How the loop of lines 59-91 is left. *)
Inductive LoopExit :=
| Exhausted     (* the extraction failed: no record left *)
| Break         (* line 74 *)
| Raised.       (* line 63: raise(SIGTERM) *)

(** The loop of lines 59-91 over the records that the input stream
    delivers. *)
Fixpoint quality_loop (action : Action) (records : list ManifestRecord)
    (st : LoopState) : LoopExit * LoopState :=
  match records with
  | [] => (Exhausted, st)
  | r :: rest =>
      match readImage (imagePath r) with
      | None =>
          (Raised,
           {| impl := impl st; ret := ret st; logStream := logStream st;
              cerr := cerr st ++ ["[ERROR] Failed to load image file: "
                                  +:+ imagePath r +:+ "."];
              calls := calls st |})
      | Some image =>
          let image := set_description image (mapStringToImgLabel (desc r)) in
          let face := image in
          let assessments := ImageQualityAssessment_default in
          let '(impl', ret', assessments, calls') :=
            if decide (action = VectorQ)
            then let '(i, s, a) := vectorQuality (impl st) face assessments in
                 (i, s, a, calls st ++ [{| call_record := r; call_status := s;
                                           call_assessment := a |}])
            else (impl st, ret st, assessments, calls st) in
          if decide (code ret' = NotImplemented)
          then (Break,
                {| impl := impl'; ret := ret'; logStream := logStream st;
                   cerr := cerr st; calls := calls' |})
          else
            let log' :=
              if decide (action = VectorQ)
              then logStream st ++ [data_row r ret' assessments]
              else logStream st in
            quality_loop action rest
              {| impl := impl'; ret := ret'; logStream := log';
                 cerr := cerr st; calls := calls' |}
      end
  end.

(** What a run of [runQuality] leaves behind. *)
Record Run := {
  outcome : termination;
  files : gmap string (list string);
  final : LoopState
}.

(** [runQuality] (lines 27-106). The input stream reads the shard lazily and
    its first read comes after the log was opened and the header written, so
    the records are those of the shard as it is then; nothing else writes to
    the shard while it is read. Every line written ends in [endl], which
    flushes it to the file. *)
Definition runQuality (implPtr : Impl) (inputFile outputLog : string)
    (action : Action) (fs : gmap string (list string)) : Run :=
  match fs !! inputFile with
  | None =>
      {| outcome := Signal SIGTERM; files := fs;
         final := {| impl := implPtr; ret := ReturnStatus_default; logStream := [];
                     cerr := ["[ERROR] Failed to open stream for " +:+ inputFile +:+ "."];
                     calls := [] |} |}
  | Some _ =>
      if negb (can_create outputLog)
      then
        {| outcome := Signal SIGTERM; files := fs;
           final := {| impl := implPtr; ret := ReturnStatus_default; logStream := [];
                       cerr := ["[ERROR] Failed to open stream for " +:+ outputLog +:+ "."];
                       calls := [] |} |}
      else
        let header := if decide (action = VectorQ) then [header_line] else [] in
        let fs1 := <[outputLog := header]> fs in
        let records := read_records (default [] (fs1 !! inputFile)) in
        let '(how, st) :=
          quality_loop action records
            {| impl := implPtr; ret := ReturnStatus_default;
               logStream := header; cerr := []; calls := [] |} in
        let fs2 := <[outputLog := logStream st]> fs1 in
        match how with
        | Raised => {| outcome := Signal SIGTERM; files := fs2; final := st |}
        | _ =>
            let '(fs3, cerr3) := remove inputFile fs2 (cerr st) in
            if decide (code (ret st) = NotImplemented)
            then
              let '(fs4, cerr4) := remove outputLog fs3 cerr3 in
              {| outcome := Return NOT_IMPLEMENTED; files := fs4;
                 final := {| impl := impl st; ret := ret st;
                             logStream := logStream st; cerr := cerr4;
                             calls := calls st |} |}
            else
              {| outcome := Return SUCCESS; files := fs3;
                 final := {| impl := impl st; ret := ret st;
                             logStream := logStream st; cerr := cerr3;
                             calls := calls st |} |}
        end
  end.

(** ** splitInputFile *)

(** Modelled from the spec: the contiguous split of [splitInputFile]
    (util.cpp, not among the sources), "shard 0 gets the first block, shard 1
    the next, etc. -- a roughly-equal contiguous split". Of [n] blocks still
    to cut, each takes [q] lines and the first [r] one more. *)
Fixpoint split_blocks {A : Type} (n q r : nat) (l : list A) : list (list A) :=
  match n with
  | O => []
  | S n' =>
      let k := (q + (if decide (r = 0%nat) then 0 else 1))%nat in
      take k l :: split_blocks n' q (Nat.pred r) (drop k l)
  end.

(** Modelled from the spec: "write each shard as a newline-delimited text
    file in the output directory" ([splitInputFile], util.cpp, not among the
    sources); the shards are written one after the other. *)
Definition write_files (contents : list (string * list string))
    (fs : gmap string (list string)) : gmap string (list string) :=
  foldl (λ acc pc, <[pc.1 := pc.2]> acc) fs contents.

(** Modelled from the spec: [splitInputFile] (util.cpp, not among the
    sources): "given an input manifest path, an output directory, and a
    requested shard count N (N >= 1), read the manifest, distribute its
    records across N shard files such that record order is preserved within
    and across shards, write each shard as a newline-delimited text file in
    the output directory, and return the list of shard file paths in shard
    order"; it fails when the manifest cannot be read or a shard cannot be
    written, and leaves the manifest in place. A record is a line of the
    manifest. *)
Definition splitInputFile (inputFile outputDir : string) (numForks : Z)
    (fs : gmap string (list string))
    : Z * list string * gmap string (list string) :=
  match fs !! inputFile with
  | None => (FAILURE, [], fs)
  | Some lines =>
      let n := Z.to_nat numForks in
      let paths := shardPath outputDir <$> seq 0 n in
      if forallb can_create paths
      then
        let blocks :=
          split_blocks n (length lines `div` n)%nat (length lines `mod` n)%nat lines in
        (SUCCESS, paths, write_files (zip paths blocks) fs)
      else (FAILURE, [], fs)
  end.

(** ** usage and main *)

(** What the parent process does that can be seen from outside, in order. *)
Inductive event :=
| Cerr (line : string)                        (* a line on [cerr] *)
| GetImplementation                           (* Interface::getImplementation() *)
| Initialize (configDir : string)             (* implPtr->initialize(configDir) *)
| SplitInputFile (inputFile outputDir : string) (numForks : Z)
| Forked (i : nat) (inputFile outputLog : string)  (* fork() made a child *)
| Waited (cpid : Z).                          (* wait() reaped a child *)

#[global] Instance event_eq_dec : EqDecision event.
Proof. solve_decision. Defined.

(** [usage] (lines 108-113): it does not return. *)
Definition usage (executable : string) : list event * termination :=
  ([Cerr ("Usage: " +:+ executable +:+ " -c configDir "
          +:+ "-o outputDir -h outputStem -i inputFile -t numForks")],
   Exit EXIT_FAILURE).

(** The version symbols that the implementation's library defines. *)
Record Versions := {
  FRVT_STRUCTS_MAJOR_VERSION : Z;
  FRVT_STRUCTS_MINOR_VERSION : Z;
  API_MAJOR_VERSION : Z;
  API_MINOR_VERSION : Z
}.

(** Lines 122-125. *)
Definition currAPIMajorVersion : Z := 4.
Definition currAPIMinorVersion : Z := 1.
Definition currStructsMajorVersion : Z := 3.
Definition currStructsMinorVersion : Z := 0.

(** The message of lines 130-135. *)
Definition structs_version_message (v : Versions) : string :=
  "[ERROR] You've compiled your library with an old version of the frvt_structs.h file: version "
  +:+ to_string (FRVT_STRUCTS_MAJOR_VERSION v) +:+ "."
  +:+ to_string (FRVT_STRUCTS_MINOR_VERSION v)
  +:+ ".  Please re-build with the latest version: "
  +:+ to_string currStructsMajorVersion +:+ "."
  +:+ to_string currStructsMinorVersion +:+ ".".

(** The message of lines 141-146. *)
Definition api_version_message (v : Versions) : string :=
  "[ERROR] You've compiled your library with an old version of the API header file: "
  +:+ to_string (API_MAJOR_VERSION v) +:+ "."
  +:+ to_string (API_MINOR_VERSION v)
  +:+ ".  Please re-build with the latest version:"
  +:+ to_string currAPIMajorVersion +:+ "."
  +:+ to_string currStructsMinorVersion +:+ ".".

(** The variables that the flags set (lines 154-159). *)
Record Config := {
  configDir : string;
  outputDir : string;
  outputFileStem : string;
  inputFile : string;
  numForks : Z
}.

Definition Config_default : Config :=
  {| configDir := "config"; outputDir := "output"; outputFileStem := "stem";
     inputFile := ""; numForks := 1 |}.

(** The chain of [strcmp] of lines 162-175: the assignment a flag stands
    for, if it is one of the five. *)
Definition flag_assignment (flag : string) : option (string → Config → Config) :=
  if decide (flag = "-c") then
    Some (λ a c, {| configDir := a; outputDir := outputDir c;
                    outputFileStem := outputFileStem c; inputFile := inputFile c;
                    numForks := numForks c |})
  else if decide (flag = "-o") then
    Some (λ a c, {| configDir := configDir c; outputDir := a;
                    outputFileStem := outputFileStem c; inputFile := inputFile c;
                    numForks := numForks c |})
  else if decide (flag = "-h") then
    Some (λ a c, {| configDir := configDir c; outputDir := outputDir c;
                    outputFileStem := a; inputFile := inputFile c;
                    numForks := numForks c |})
  else if decide (flag = "-i") then
    Some (λ a c, {| configDir := configDir c; outputDir := outputDir c;
                    outputFileStem := outputFileStem c; inputFile := a;
                    numForks := numForks c |})
  else if decide (flag = "-t") then
    Some (λ a c, {| configDir := configDir c; outputDir := outputDir c;
                    outputFileStem := outputFileStem c; inputFile := inputFile c;
                    numForks := atoi a |})
  else None.

(** How the loop of lines 161-176 ends. *)
Inductive Parsed :=
| Parsed_ok (c : Config)
| Unrecognized (flag : string)   (* lines 173-174 *)
| Null_argument.                 (* the last flag has no value: argv[argc],
                                    a null pointer, is read as a string *)

(** The loop of lines 161-176 over [argv[2]], [argv[3]], ... *)
Fixpoint parse_flags (args : list string) (c : Config) : Parsed :=
  match args with
  | [] => Parsed_ok c
  | flag :: rest =>
      match flag_assignment flag with
      | None => Unrecognized flag
      | Some assign =>
          match rest with
          | [] => Null_argument
          | a :: rest' => parse_flags rest' (assign a c)
          end
      end
  end.

(** The log of shard [i] (line 215). *)
Definition log_path (c : Config) (i : nat) : string :=
  outputDir c +:+ "/" +:+ outputFileStem c +:+ ".log." +:+ to_string (Z.of_nat i).

(** The loop of lines 206-228 in the parent: [fork_ok i] tells whether the
    fork for shard [i] made a child. The result is the value of [parent]. *)
Fixpoint fork_loop (c : Config) (fork_ok : nat → bool) (i : nat)
    (inputFileVector : list string) (parent : bool) : list event * bool :=
  match inputFileVector with
  | [] => ([], parent)
  | shard :: rest =>
      if fork_ok i
      then let '(ev, p) := fork_loop c fork_ok (S i) rest true in
           (Forked i shard (log_path c i) :: ev, p)
      else let '(ev, p) := fork_loop c fork_ok (S i) rest parent in
           (Cerr "Problem forking" :: ev, p)
  end.

(** The child that [fork] makes for shard [i] (lines 209-219): the value it
    returns from [main], and the files it leaves. *)
Definition child (implPtr : Impl) (c : Config) (action : Action) (i : nat)
    (shard : string) (fs : gmap string (list string)) : Run :=
  if decide (action = VectorQ)
  then runQuality implPtr shard (log_path c i) action fs
  else {| outcome := Return FAILURE; files := fs;
          final := {| impl := implPtr; ret := ReturnStatus_default;
                      logStream := []; cerr := []; calls := [] |} |}.

(** The loop of lines 232-247: [n] is [numForks], [waits] what the successive
    calls of [wait] return (the pid, and [stat_val]). With no child left
    [wait] fails and [stat_val] is not set: the result is [None]. *)
Fixpoint wait_loop (n : nat) (waits : list (Z * wait_status)) (exitStatus : Z)
    : list event * option Z :=
  match n with
  | O => ([], Some exitStatus)
  | S n' =>
      match waits with
      | [] => ([], None)
      | (cpid, stat_val) :: waits' =>
          match stat_val with
          | W_EXITED status =>
              let '(ev, r) := wait_loop n' waits' status in
              (Waited cpid :: ev, r)
          | W_SIGNALED sig =>
              let '(ev, r) := wait_loop n' waits' FAILURE in
              (Waited cpid
               :: Cerr ("PID " +:+ to_string cpid +:+ " exited due to signal "
                        +:+ to_string sig) :: ev, r)
          | W_OTHER =>
              let '(ev, r) := wait_loop n' waits' FAILURE in
              (Waited cpid
               :: Cerr ("PID " +:+ to_string cpid +:+ " exited with unknown status.")
               :: ev, r)
          end
      end
  end.

(** Lines 230-250. *)
Definition wait_children (parent : bool) (numForks : Z)
    (waits : list (Z * wait_status)) (exitStatus : Z) : list event * termination :=
  if parent
  then let '(ev, r) := wait_loop (Z.to_nat numForks) waits exitStatus in
       (ev, match r with Some s => Return s | None => Undefined end)
  else ([], Return exitStatus).

(** [main] (lines 115-251) in the parent process: [executable] is [argv[0]]
    and [args] the arguments after it. [splitInputFile] is taken to leave
    [numForks] as it is. *)
Definition main (v : Versions) (executable : string) (args : list string)
    (fs : gmap string (list string)) (fork_ok : nat → bool)
    (waits : list (Z * wait_status)) : list event * termination :=
  let exitStatus := SUCCESS in
  if negb (bool_decide (FRVT_STRUCTS_MAJOR_VERSION v = currStructsMajorVersion)
           && bool_decide (FRVT_STRUCTS_MINOR_VERSION v = currStructsMinorVersion))
  then ([Cerr (structs_version_message v)], Return FAILURE)
  else if negb (bool_decide (API_MAJOR_VERSION v = currAPIMajorVersion)
                && bool_decide (API_MINOR_VERSION v = currAPIMinorVersion))
  then ([Cerr (api_version_message v)], Return FAILURE)
  else
    match args with
    | [] => usage executable
    | actionstr :: flags =>
        match parse_flags flags Config_default with
        | Unrecognized flag =>
            let '(ev, t) := usage executable in
            (Cerr ("[ERROR] Unrecognized flag: " +:+ flag) :: ev, t)
        | Null_argument => ([], Undefined)
        | Parsed_ok c =>
            let action := mapStringToAction actionstr in
            if decide (action = VectorQ)
            then
              let implPtr := getImplementation in
              let '(implPtr, ret) := initialize implPtr (configDir c) in
              if decide (code ret = Success)
              then
                let '(status, inputFileVector, fs') :=
                  splitInputFile (inputFile c) (outputDir c) (numForks c) fs in
                if decide (status = SUCCESS)
                then
                  let '(forks, parent) :=
                    fork_loop c fork_ok 0 inputFileVector false in
                  let '(ev, t) :=
                    wait_children parent (numForks c) waits exitStatus in
                  ([GetImplementation; Initialize (configDir c);
                    SplitInputFile (inputFile c) (outputDir c) (numForks c)]
                   ++ forks ++ ev, t)
                else
                  ([GetImplementation; Initialize (configDir c);
                    SplitInputFile (inputFile c) (outputDir c) (numForks c);
                    Cerr "[ERROR] An error occurred with processing the input file."],
                   Return FAILURE)
              else
                ([GetImplementation; Initialize (configDir c);
                  Cerr ("[ERROR] initialize() returned error: "
                        +:+ ReturnCode_text (code ret) +:+ ".")],
                 Return FAILURE)
            else
              let '(ev, t) := usage executable in
              (Cerr ("Unknown command: " +:+ actionstr) :: ev, t)
        end
    end.

(** ** Vocabulary of the properties *)

(** The line that the loop writes for a call. *)
Definition row_of_call (c : Call) : string :=
  data_row (call_record c) (call_status c) (call_assessment c).

(** The call returned the not-implemented status. *)
Definition sentinel (c : Call) : Prop := code (call_status c) = NotImplemented.

(** The image of the record can be decoded. *)
Definition readable (r : ManifestRecord) : Prop := is_Some (readImage (imagePath r)).

(** The state in which [runQuality] enters its loop. *)
Definition loop_entry (implPtr : Impl) (header : list string) : LoopState :=
  {| impl := implPtr; ret := ReturnStatus_default; logStream := header;
     cerr := []; calls := [] |}.

(** The calls whose result is written to the log. *)
Definition evaluated (cs : list Call) : list Call :=
  filter (λ c, code (call_status c) ≠ NotImplemented) cs.

(** The names of the columns, in the order of the header. *)
Definition column_names : list string :=
  ["id"; "image"; "returnCode"; "bb_xleft"; "bb_ytop"; "bb_width"; "bb_height"]
  ++ (measure_name <$> measures).

(** The columns of the line of a record as the specification lists them: id,
    image path, the status code as an integer, the four fields of the
    bounding box, then for each measure, in the order of the enumeration, its
    value or NA. *)
Definition columns (c : Call) : list string :=
  [id (call_record c); imagePath (call_record c);
   to_string (underlying (code (call_status c)));
   to_string (xleft (boundingBox (call_assessment c)));
   to_string (ytop (boundingBox (call_assessment c)));
   to_string (width (boundingBox (call_assessment c)));
   to_string (height (boundingBox (call_assessment c)))]
  ++ (measure_cell (qAssessments (call_assessment c)) <$> measures).

(** The value that [enum class ReturnCode] gives to each enumerator (lines
    198-231 of five_structs.h), as a decimal numeral. *)
Definition ReturnCode_decimal (rc : ReturnCode) : string :=
  match rc with
  | Success => "0" | UnknownError => "1" | ConfigError => "2"
  | RefuseInput => "3" | ExtractError => "4" | ParseError => "5"
  | TemplateCreationError => "6" | VerifTemplateError => "7"
  | FaceDetectionError => "8" | NumDataError => "9"
  | TemplateFormatError => "10" | EnrollDirError => "11"
  | InputLocationError => "12" | MemoryError => "13"
  | NotImplemented => "14" | VendorError => "15"
  end.

(** The flags of the command line. *)
Definition known_flags : list string := ["-c"; "-o"; "-h"; "-i"; "-t"].

(** Flags with their values, as they stand on the command line. *)
Definition flag_arguments (pairs : list (string * string)) : list string :=
  concat ((λ p, [p.1; p.2]) <$> pairs).

(** The line that [usage] prints. *)
Definition usage_line (executable : string) : string :=
  "Usage: " +:+ executable
  +:+ " -c configDir -o outputDir -h outputStem -i inputFile -t numForks".

(** Both version pairs are the expected ones. *)
Definition versions_match (v : Versions) : Prop :=
  FRVT_STRUCTS_MAJOR_VERSION v = currStructsMajorVersion
  ∧ FRVT_STRUCTS_MINOR_VERSION v = currStructsMinorVersion
  ∧ API_MAJOR_VERSION v = currAPIMajorVersion
  ∧ API_MINOR_VERSION v = currAPIMinorVersion.

(** A command line that the driver refuses: the action is missing, or an
    argument where a flag is expected is none of the five flags. *)
Definition refused (args : list string) : Prop :=
  args = []
  ∨ ∃ actionstr pairs flag rest,
      args = actionstr :: flag_arguments pairs ++ flag :: rest
      ∧ Forall (λ p, p.1 ∈ known_flags) pairs
      ∧ flag ∉ known_flags.

(** The exit status that one reaped child leaves in [exitStatus]. *)
Definition status_of (w : wait_status) : Z :=
  match w with
  | W_EXITED status => status
  | W_SIGNALED _ | W_OTHER => FAILURE
  end.

(** A line that holds one record. *)
Definition one_record (line : string) : Prop := length (words line) = 3%nat.

(** A string that [operator>>] reads back as one token: it is not empty
    and holds no white space. *)
Fixpoint no_space (s : string) : bool :=
  match s with
  | EmptyString => true
  | String c s' => negb (isspace c) && no_space s'
  end.

Definition token (s : string) : Prop := s ≠ "" ∧ no_space s = true.

(** The tokens of a text file, as the input stream delivers them. *)
Definition tokens (lines : list string) : list string := concat (words <$> lines).

(** The assignments that a list of flags with their values stands for, made
    from left to right. *)
Definition assign_all (pairs : list (string * string)) (c : Config) : Config :=
  foldl (λ c p, match flag_assignment p.1 with
                | Some assign => assign p.2 c
                | None => c
                end) c pairs.

(** The line of line 62. *)
Definition decode_message (r : ManifestRecord) : string :=
  "[ERROR] Failed to load image file: " +:+ imagePath r +:+ ".".

(** The line of lines 239-240. *)
Definition signal_message (cpid sig : Z) : string :=
  "PID " +:+ to_string cpid +:+ " exited due to signal " +:+ to_string sig.

End Model.

(** * A concrete harness

    An environment, an implementation, a set of images and a file system on
    which the driver can be run. *)
Module Demo.

Inductive action := no_action | vector_quality.

#[global] Instance action_eq_dec : EqDecision action.
Proof. solve_decision. Defined.

(** An image is known by the name of its file; every file can be decoded
    but corrupt.png. *)
Definition decode (path : string) : option string :=
  if decide (path = "corrupt.png") then None else Some path.

Definition parse_int (s : string) : Z :=
  match NilZero.int_of_string s with
  | Some i => Z.of_int i
  | None => 0
  end.

(** Exit outcomes with three different values, two quality measures with
    integers for values, and shards named input.txt.0, input.txt.1, ... *)
Definition environment : Environment := {|
  SUCCESS := 0;
  FAILURE := 1;
  NOT_IMPLEMENTED := 2;
  Action := action;
  Action_eq_dec := action_eq_dec;
  VectorQ := vector_quality;
  mapStringToAction :=
    λ s, if decide (s = "vectorQuality") then vector_quality else no_action;
  Image := string;
  ImageLabel := string;
  mapStringToImgLabel := λ s, s;
  set_description := λ image _, image;
  readImage := decode;
  QualityMeasure := nat;
  QualityMeasure_eq_dec := Nat.eq_dec;
  QualityMeasure_countable := nat_countable;
  measures := [0; 1]%nat;
  measure_name := λ e, "measure" +:+ to_string (Z.of_nat e);
  double := Z;
  double_to_string := to_string;
  atoi := parse_int;
  can_create := λ _, true;
  shardPath := λ outputDir i, outputDir +:+ "/input.txt." +:+ to_string (Z.of_nat i)
|}.

(** The implementation counts its calls. It does not support
    unsupported.png, finds no face in noface.png, and for any other image
    gives a bounding box and the first measure only. *)
Definition assess (n : nat) (image : string)
    (assessments : ImageQualityAssessment nat Z)
    : nat * ReturnStatus * ImageQualityAssessment nat Z :=
  if decide (image = "unsupported.png")
  then (S n, {| code := NotImplemented; info := "" |}, assessments)
  else if decide (image = "noface.png")
  then (S n, {| code := FaceDetectionError; info := "no face" |}, assessments)
  else (S n, {| code := Success; info := "" |},
        {| qAssessments := {[ 0%nat := 7 ]};
           boundingBox := {| xleft := 10; ytop := 20; width := 30; height := 40 |} |}).

Definition implementation : @Interface environment :=
  @Build_Interface environment nat 0%nat
    (λ n _, (n, {| code := Success; info := "" |})) assess.

(** The pointer that [main] holds after [initialize]. *)
Definition implPtr : @Impl environment implementation := 0%nat.

(** The files: a manifest and four shards. *)
Definition fs : gmap string (list string) :=
  {[ "manifest.txt" := ["a1 face1.png mugshot"; "a2 noface.png wild";
                        "a3 face3.png iso"; "a4 face4.png iso";
                        "a5 face5.png wild"];
     "output/input.txt.0" := ["a1 face1.png mugshot"; "a2 noface.png wild";
                              "a3 face3.png iso"];
     "output/input.txt.1" := ["b1 face1.png iso"; "b2 face2.png iso";
                              "b3 unsupported.png iso"; "b4 face4.png iso";
                              "b5 face5.png iso"];
     "output/input.txt.2" := ["c1 face1.png iso"; "c2 corrupt.png iso";
                              "c3 face3.png iso"];
     "output/input.txt.3" := [] ]}.

(** The versions that the driver expects. *)
Definition versions : Versions :=
  {| FRVT_STRUCTS_MAJOR_VERSION := 3; FRVT_STRUCTS_MINOR_VERSION := 0;
     API_MAJOR_VERSION := 4; API_MINOR_VERSION := 1 |}.

(** [runQuality] for shard [i]. *)
Definition run (i : nat) : @Run environment implementation :=
  @runQuality environment implementation implPtr
    ("output/input.txt." +:+ to_string (Z.of_nat i))
    ("output/stem.log." +:+ to_string (Z.of_nat i)) vector_quality fs.

(** [main], every fork making a child. *)
Definition harness (args : list string) (waits : list (Z * wait_status))
    : list event * termination :=
  @main environment implementation versions "validate_quality" args fs
    (λ _, true) waits.

(** The call for the third record of shard 1, and the one for the second
    record of shard 0. *)
Definition call_b3 : @Call environment :=
  {| call_record := {| id := "b3"; imagePath := "unsupported.png"; desc := "iso" |};
     call_status := {| code := NotImplemented; info := "" |};
     call_assessment := @ImageQualityAssessment_default environment |}.

Definition call_a2 : @Call environment :=
  {| call_record := {| id := "a2"; imagePath := "noface.png"; desc := "wild" |};
     call_status := {| code := FaceDetectionError; info := "no face" |};
     call_assessment := @ImageQualityAssessment_default environment |}.

End Demo.

(** An implementation whose [initialize] fails, and that supports
    nothing. *)
Module Faulty.

Definition implementation : @Interface Demo.environment :=
  @Build_Interface Demo.environment nat 0%nat
    (λ n _, (n, {| code := ConfigError; info := "no configuration" |}))
    (λ n _ assessments, (n, {| code := NotImplemented; info := "" |}, assessments)).

Definition harness (args : list string) (waits : list (Z * wait_status))
    : list event * termination :=
  @main Demo.environment implementation Demo.versions "validate_quality" args
    Demo.fs (λ _, true) waits.

End Faulty.

(** An implementation that refuses noface.png, reports an error of its own
    for any other image, and assesses nothing. *)
Module Refusing.

Definition assess (n : nat) (image : string)
    (assessments : ImageQualityAssessment nat Z)
    : nat * ReturnStatus * ImageQualityAssessment nat Z :=
  if decide (image = "noface.png")
  then (S n, {| code := RefuseInput; info := "" |}, assessments)
  else (S n, {| code := VendorError; info := "" |}, assessments).

Definition implementation : @Interface Demo.environment :=
  @Build_Interface Demo.environment nat 0%nat
    (λ n _, (n, {| code := Success; info := "" |})) assess.

Definition implPtr : @Impl Demo.environment implementation := 0%nat.

(** [runQuality] for shard 0. *)
Definition run : @Run Demo.environment implementation :=
  @runQuality Demo.environment implementation implPtr
    "output/input.txt.0" "output/stem.log.0" Demo.vector_quality Demo.fs.

(** The call for the second record of shard 0. *)
Definition call_a2 : @Call Demo.environment :=
  {| call_record := {| id := "a2"; imagePath := "noface.png"; desc := "wild" |};
     call_status := {| code := RefuseInput; info := "" |};
     call_assessment := @ImageQualityAssessment_default Demo.environment |}.

(** The call for its first record. *)
Definition call_a1 : @Call Demo.environment :=
  {| call_record := {| id := "a1"; imagePath := "face1.png"; desc := "mugshot" |};
     call_status := {| code := VendorError; info := "" |};
     call_assessment := @ImageQualityAssessment_default Demo.environment |}.

End Refusing.

(** * Properties *)

Section Properties.

Context {Env : Environment} {Itf : Interface}.

(** ** Strings *)

Lemma string_app_nil_r (s : string) : s +:+ "" = s.
Proof.
  induction s as [|a s IH]; [done|].
  change (String a (s +:+ "") = String a s). by rewrite IH.
Qed.

Lemma string_app_assoc (s1 s2 s3 : string) :
  (s1 +:+ s2) +:+ s3 = s1 +:+ (s2 +:+ s3).
Proof.
  induction s1 as [|a s1 IH]; [done|].
  change (String a ((s1 +:+ s2) +:+ s3) = String a (s1 +:+ s2 +:+ s3)).
  by rewrite IH.
Qed.

Lemma concat_empty_cons (x : string) (xs : list string) :
  String.concat "" (x :: xs) = x +:+ String.concat "" xs.
Proof. destruct xs; simpl; [by rewrite string_app_nil_r | done]. Qed.

Lemma concat_empty_app (xs ys : list string) :
  String.concat "" (xs ++ ys) = String.concat "" xs +:+ String.concat "" ys.
Proof.
  induction xs as [|x xs IH]; [done|].
  rewrite <- app_comm_cons, !concat_empty_cons, IH.
  by rewrite string_app_assoc.
Qed.

(** Joining with a separator is writing the separator before every element
    but the first. *)
Lemma concat_sep_cons (sep x : string) (xs : list string) :
  String.concat sep (x :: xs)
  = x +:+ String.concat "" ((λ y, sep +:+ y) <$> xs).
Proof.
  revert x. induction xs as [|y ys IH]; intros x.
  - change (x = x +:+ ""). by rewrite string_app_nil_r.
  - change (String.concat sep (x :: y :: ys))
      with (x +:+ sep +:+ String.concat sep (y :: ys)).
    rewrite IH, fmap_cons, concat_empty_cons.
    by rewrite !string_app_assoc.
Qed.

(** ** The loop of runQuality *)

Lemma quality_loop_cons r rest st :
  quality_loop VectorQ (r :: rest) st =
  match readImage (imagePath r) with
  | None =>
      (Raised,
       {| impl := impl st; ret := ret st; logStream := logStream st;
          cerr := cerr st ++ ["[ERROR] Failed to load image file: "
                              +:+ imagePath r +:+ "."];
          calls := calls st |})
  | Some image =>
      let '(i, s, a) :=
        vectorQuality (impl st)
          (set_description image (mapStringToImgLabel (desc r)))
          ImageQualityAssessment_default in
      let c := {| call_record := r; call_status := s; call_assessment := a |} in
      if decide (code s = NotImplemented)
      then (Break, {| impl := i; ret := s; logStream := logStream st;
                      cerr := cerr st; calls := calls st ++ [c] |})
      else quality_loop VectorQ rest
             {| impl := i; ret := s; logStream := logStream st ++ [row_of_call c];
                cerr := cerr st; calls := calls st ++ [c] |}
  end.
Proof.
  simpl. destruct (readImage (imagePath r)) as [image|]; [|done].
  destruct (decide (VectorQ = VectorQ)) as [_|]; [|done].
  destruct (vectorQuality _ _ _) as [[i s] a]. done.
Qed.

(** What the loop does, whichever way it is left: the calls it makes are for
    the first records of the shard, in order, all of them readable; the lines
    it writes are those of the calls that did not return the sentinel. *)
Lemma quality_loop_calls records st how st' :
  quality_loop VectorQ records st = (how, st') →
  ∃ cs, calls st' = calls st ++ cs
      ∧ call_record <$> cs = take (length cs) records
      ∧ Forall (λ c, readable (call_record c)) cs
      ∧ logStream st' = logStream st ++ (row_of_call <$> evaluated cs)
      ∧ ret st' = default (ret st) (call_status <$> last cs)
      ∧ match how with
        | Exhausted => length cs = length records ∧ Forall (λ c, ¬ sentinel c) cs
        | Break => ∃ cs0 c, cs = cs0 ++ [c] ∧ sentinel c
                            ∧ Forall (λ c, ¬ sentinel c) cs0
        | Raised => (∃ r, records !! length cs = Some r ∧ ¬ readable r)
                    ∧ Forall (λ c, ¬ sentinel c) cs
        end.
Proof.
  unfold evaluated.
  revert st. induction records as [|r rest IH]; intros st Hrun.
  - simpl in Hrun. injection Hrun as <- <-. exists [].
    rewrite app_nil_r. simpl. rewrite app_nil_r. repeat split; constructor.
  - rewrite quality_loop_cons in Hrun.
    destruct (readImage (imagePath r)) as [image|] eqn:Himg.
    + destruct (vectorQuality _ _ _) as [[i s] a].
      set (c := {| call_record := r; call_status := s; call_assessment := a |}) in *.
      assert (Hc : readable (call_record c)) by (unfold readable; simpl; rewrite Himg; eauto).
      destruct (decide (code s = NotImplemented)) as [Hs|Hs].
      * injection Hrun as <- <-. exists [c]. simpl.
        rewrite filter_cons_False by (intros H; apply H; exact Hs).
        rewrite filter_nil. simpl. rewrite app_nil_r.
        repeat split; [by constructor|].
        exists [], c. repeat split; [exact Hs | constructor].
      * apply IH in Hrun as (cs & Hcalls & Hrec & Hread & Hlog & Hret & Hhow).
        simpl in *. exists (c :: cs).
        rewrite filter_cons_True by exact Hs.
        rewrite <- !app_assoc in *. simpl in *.
        split; [exact Hcalls|]. split; [f_equal; exact Hrec|].
        split; [by constructor|]. split; [exact Hlog|].
        split.
        { rewrite Hret. destruct cs as [|c' cs]; [reflexivity|].
          rewrite last_cons_cons.
          destruct (last (c' :: cs)) as [x|] eqn:E; [done|].
          by apply last_None in E. }
        destruct how.
        -- destruct Hhow as [Hlen Hall]. split; [by rewrite Hlen | by constructor].
        -- destruct Hhow as (cs0 & c0 & -> & Hc0 & Hall).
           exists (c :: cs0), c0. repeat split; [exact Hc0 | by constructor].
        -- destruct Hhow as [Hr Hall]. split; [exact Hr | by constructor].
    + injection Hrun as <- <-. exists []. simpl.
      rewrite !app_nil_r. repeat split; try constructor.
      exists r. split; [done|]. unfold readable. rewrite Himg. by intros [? ?].
Qed.

Lemma evaluated_all (cs : list Call) :
  Forall (λ c, ¬ sentinel c) cs → evaluated cs = cs.
Proof.
  unfold evaluated, sentinel. induction 1 as [|c cs Hc _ IH]; [done|].
  by rewrite filter_cons_True, IH.
Qed.

Lemma evaluated_snoc_sentinel (cs : list Call) (c : Call) :
  Forall (λ c, ¬ sentinel c) cs → sentinel c → evaluated (cs ++ [c]) = cs.
Proof.
  intros Hall Hc. unfold evaluated. rewrite filter_app.
  fold (evaluated cs). rewrite evaluated_all by done.
  rewrite filter_cons_False by (intros H; by apply H).
  by rewrite filter_nil, app_nil_r.
Qed.

(** The call made for record [j] is the [j]-th call. *)
Lemma call_of_record (cs : list Call) (records : list ManifestRecord) j :
  call_record <$> cs = take (length cs) records →
  (j < length cs)%nat →
  ∃ c, cs !! j = Some c ∧ records !! j = Some (call_record c).
Proof.
  intros Hrec Hj. destruct (lookup_lt_is_Some_2 cs j Hj) as [c Hc].
  exists c. split; [done|].
  assert (H : (call_record <$> cs) !! j = Some (call_record c))
    by (by rewrite list_lookup_fmap, Hc).
  rewrite Hrec, lookup_take_lt in H; done.
Qed.

(** ** Tokens *)

Lemma triples_lookup ts k r :
  triples ts !! k = Some r ↔
  ts !! (3 * k)%nat = Some (id r) ∧ ts !! (3 * k + 1)%nat = Some (imagePath r)
  ∧ ts !! (3 * k + 2)%nat = Some (desc r).
Proof.
  revert ts. induction k as [|k IH]; intros ts.
  - destruct r as [i p d].
    destruct ts as [|a [|b [|c rest]]]; simpl; intuition congruence.
  - replace (3 * S k)%nat with (S (S (S (3 * k)))) by lia.
    replace (S (S (S (3 * k))) + 1)%nat with (S (S (S (3 * k + 1)))) by lia.
    replace (S (S (S (3 * k))) + 2)%nat with (S (S (S (3 * k + 2)))) by lia.
    destruct ts as [|a [|b [|c rest]]]; cbn [triples]; simpl lookup;
      [intuition congruence..|apply IH].
Qed.

Lemma no_space_app s t : no_space (s +:+ t) = no_space s && no_space t.
Proof.
  induction s as [|c s IH]; [done|].
  change (no_space (String c (s +:+ t)) = no_space (String c s) && no_space t).
  simpl. rewrite IH. by rewrite andb_assoc.
Qed.

Lemma string_app_nonempty s c t : s +:+ String c t ≠ "".
Proof. by destruct s. Qed.

Lemma words_from_tokens s cur :
  cur = "" ∨ token cur → Forall token (words_from cur s).
Proof.
  revert cur. induction s as [|c s IH]; intros cur Hcur; simpl.
  - case_bool_decide; [constructor|]. destruct Hcur; [done|].
    constructor; [done|constructor].
  - destruct (isspace c) eqn:Hc.
    + case_bool_decide; [by apply IH; left|].
      destruct Hcur; [done|]. constructor; [done|]. apply IH. by left.
    + apply IH. right. split; [apply string_app_nonempty|].
      rewrite no_space_app. simpl. rewrite Hc. simpl.
      destruct Hcur as [->|[_ ->]]; done.
Qed.

Lemma words_token s : Forall token (words s).
Proof. apply words_from_tokens. by left. Qed.

Lemma words_from_no_space cur t rest :
  no_space t = true → words_from cur (t +:+ rest) = words_from (cur +:+ t) rest.
Proof.
  revert cur. induction t as [|c t IH]; intros cur Ht.
  - by rewrite string_app_nil_r.
  - simpl in Ht. apply andb_true_iff in Ht as [Hc Ht].
    apply negb_true_iff in Hc.
    change (words_from cur (String c (t +:+ rest))
            = words_from (cur +:+ String c t) rest).
    simpl. rewrite Hc, IH by done.
    by rewrite string_app_assoc.
Qed.

Lemma words_from_space cur rest :
  cur ≠ "" → words_from cur (String " " rest) = cur :: words_from "" rest.
Proof. intros Hcur. simpl. by rewrite bool_decide_eq_false_2. Qed.

(** Tokens, each with a space before it, after a token being read. *)
Lemma words_from_spaced cur xs :
  cur ≠ "" → Forall token xs →
  words_from cur (String.concat "" ((λ y, " " +:+ y) <$> xs)) = cur :: xs.
Proof.
  intros Hcur Hxs. revert cur Hcur.
  induction Hxs as [|y ys [Hy Hns] _ IH]; intros cur Hcur.
  - simpl. by rewrite bool_decide_eq_false_2.
  - rewrite fmap_cons, concat_empty_cons.
    change ((" " +:+ y) +:+ String.concat "" ((λ y, " " +:+ y) <$> ys))
      with (String " " (y +:+ String.concat "" ((λ y, " " +:+ y) <$> ys))).
    rewrite words_from_space, words_from_no_space by done.
    change ("" +:+ y) with y. by rewrite IH.
Qed.

(** Tokens joined by single spaces are read back as they were. *)
Lemma words_joined cols :
  Forall token cols → words (String.concat " " cols) = cols.
Proof.
  intros Hcols. destruct Hcols as [|x xs [Hx Hns] Hxs]; [done|].
  rewrite concat_sep_cons. unfold words.
  rewrite words_from_no_space by done. change ("" +:+ x) with x.
  by apply words_from_spaced.
Qed.

(** Tokens, each with a space after it. *)
Lemma words_trailed names :
  Forall token names →
  words (String.concat "" ((λ n, n +:+ " ") <$> names)) = names.
Proof.
  unfold words. induction 1 as [|n names [Hn Hns] _ IH]; [done|].
  rewrite fmap_cons, concat_empty_cons, string_app_assoc.
  rewrite words_from_no_space by done. change ("" +:+ n) with n.
  change (" " +:+ ?r) with (String " " r).
  rewrite words_from_space by done. by rewrite IH.
Qed.

Lemma uint_no_space d : no_space (NilEmpty.string_of_uint d) = true.
Proof. induction d; simpl; done. Qed.

Lemma to_string_token z : token (to_string z).
Proof.
  unfold to_string, token.
  assert (Hu : ∀ d, NilZero.string_of_uint d ≠ ""
                    ∧ no_space (NilZero.string_of_uint d) = true).
  { intros d. split; [by destruct d|].
    destruct d; try apply (uint_no_space (_ _)); done. }
  destruct (Z.to_int z) as [d|d]; simpl; [apply Hu|].
  split; [done|]. apply Hu.
Qed.

Lemma triples_elem r ts :
  r ∈ triples ts → id r ∈ ts ∧ imagePath r ∈ ts ∧ desc r ∈ ts.
Proof.
  intros Hr. apply list_elem_of_lookup in Hr as [k Hk].
  apply triples_lookup in Hk as (Hi & Hp & Hd).
  repeat split; by eapply list_elem_of_lookup_2.
Qed.

Lemma read_records_token r lines :
  r ∈ read_records lines → token (id r) ∧ token (imagePath r) ∧ token (desc r).
Proof.
  intros Hr. apply triples_elem in Hr.
  assert (Hall : Forall token (concat (words <$> lines))).
  { apply Forall_concat, Forall_fmap, Forall_forall. intros l _. apply words_token. }
  rewrite Forall_forall in Hall. destruct Hr as (? & ? & ?).
  repeat split; by apply Hall.
Qed.

(** ** runQuality *)

Lemma LoopState_eta (st : LoopState) :
  {| impl := impl st; ret := ret st; logStream := logStream st;
     cerr := cerr st; calls := calls st |} = st.
Proof. by destruct st. Qed.

(** [runQuality] once both streams are open. *)
Lemma runQuality_opened implPtr inF outL fs lines how st :
  fs !! inF = Some lines → can_create outL = true → inF ≠ outL →
  quality_loop VectorQ (read_records lines) (loop_entry implPtr [header_line])
    = (how, st) →
  runQuality implPtr inF outL VectorQ fs =
    let fs2 := <[outL := logStream st]> fs in
    match how with
    | Raised => {| outcome := Signal SIGTERM; files := fs2; final := st |}
    | _ =>
        if decide (code (ret st) = NotImplemented)
        then {| outcome := Return NOT_IMPLEMENTED;
                files := delete outL (delete inF fs2); final := st |}
        else {| outcome := Return SUCCESS; files := delete inF fs2; final := st |}
    end.
Proof.
  intros Hin Hout Hne Hloop. unfold runQuality. rewrite Hin, Hout. simpl.
  destruct (decide (VectorQ = VectorQ)) as [_|]; [|done].
  rewrite lookup_insert_ne by done. rewrite Hin. simpl.
  unfold loop_entry in Hloop. rewrite Hloop. rewrite insert_insert_eq.
  assert (Hrm : remove inF (<[outL:=logStream st]> fs) (cerr st)
                = (delete inF (<[outL:=logStream st]> fs), cerr st)).
  { unfold remove. by rewrite lookup_insert_ne, Hin by done. }
  assert (Hrm' : remove outL (delete inF (<[outL:=logStream st]> fs)) (cerr st)
                 = (delete outL (delete inF (<[outL:=logStream st]> fs)), cerr st)).
  { unfold remove. by rewrite lookup_delete_ne, lookup_insert_eq by done. }
  destruct how; try done; rewrite Hrm; destruct (decide _); try rewrite Hrm';
    by rewrite LoopState_eta.
Qed.

(** A run that made a call had opened both streams. *)
Lemma runQuality_call_opened implPtr inF outL fs :
  calls (final (runQuality implPtr inF outL VectorQ fs)) ≠ [] →
  ∃ lines, fs !! inF = Some lines ∧ can_create outL = true.
Proof.
  unfold runQuality. destruct (fs !! inF) as [lines|]; [|done].
  destruct (can_create outL); [|done]. eauto.
Qed.

(** So had a run that returned. *)
Lemma runQuality_return_opened implPtr inF outL fs v :
  outcome (runQuality implPtr inF outL VectorQ fs) = Return v →
  ∃ lines, fs !! inF = Some lines ∧ can_create outL = true.
Proof.
  unfold runQuality. destruct (fs !! inF) as [lines|]; [|done].
  destruct (can_create outL); [|done]. eauto.
Qed.

(** After the last call [ret] holds its status; before the first one, the
    status of the default constructor, which is not the sentinel. *)
Lemma ret_not_sentinel (st : LoopState) :
  ret st = default ReturnStatus_default (call_status <$> last (calls st)) →
  Forall (λ c, ¬ sentinel c) (calls st) →
  code (ret st) ≠ NotImplemented.
Proof.
  intros -> Hall. destruct (last (calls st)) as [c|] eqn:Hlast; simpl; [|done].
  apply last_Some in Hlast as [cs' Hlast]. rewrite Hlast in Hall.
  apply Forall_app in Hall as [_ Hc]. by inversion Hc.
Qed.

Lemma ret_sentinel (st : LoopState) cs0 c :
  ret st = default ReturnStatus_default (call_status <$> last (calls st)) →
  calls st = cs0 ++ [c] → sentinel c →
  code (ret st) = NotImplemented.
Proof. intros -> -> Hc. by rewrite last_snoc. Qed.

(** A run with both streams open: what holds of its calls and of its log,
    and the three ways it can end. *)
Lemma runQuality_run implPtr inF outL fs lines :
  fs !! inF = Some lines → can_create outL = true → inF ≠ outL →
  let run := runQuality implPtr inF outL VectorQ fs in
  let cs := calls (final run) in
  let log := logStream (final run) in
  call_record <$> cs = take (length cs) (read_records lines)
  ∧ Forall (λ c, readable (call_record c)) cs
  ∧ log = header_line :: (row_of_call <$> evaluated cs)
  ∧ ((outcome run = Return SUCCESS
      ∧ files run = delete inF (<[outL := log]> fs)
      ∧ length cs = length (read_records lines)
      ∧ Forall (λ c, ¬ sentinel c) cs
      ∧ code (ret (final run)) ≠ NotImplemented)
     ∨ (outcome run = Return NOT_IMPLEMENTED
        ∧ files run = delete outL (delete inF (<[outL := log]> fs))
        ∧ (∃ cs0 c, cs = cs0 ++ [c] ∧ sentinel c ∧ Forall (λ c, ¬ sentinel c) cs0)
        ∧ code (ret (final run)) = NotImplemented)
     ∨ (outcome run = Signal SIGTERM
        ∧ files run = <[outL := log]> fs
        ∧ (∃ r, read_records lines !! length cs = Some r ∧ ¬ readable r)
        ∧ Forall (λ c, ¬ sentinel c) cs)).
Proof.
  intros Hin Hout Hne.
  destruct (quality_loop VectorQ (read_records lines)
              (loop_entry implPtr [header_line])) as [how st] eqn:Hloop.
  rewrite (runQuality_opened _ _ _ _ _ _ _ Hin Hout Hne Hloop).
  apply quality_loop_calls in Hloop
    as (cs & Hcalls & Hrec & Hread & Hlog & Hret & Hhow).
  simpl in Hcalls, Hlog, Hret. subst cs.
  destruct how.
  - destruct Hhow as [Hlen Hall].
    pose proof (ret_not_sentinel st Hret Hall) as Hcode.
    destruct (decide (code (ret st) = NotImplemented)); [done|]. simpl.
    repeat split; try done. left. done.
  - destruct Hhow as (cs0 & c & Hcs & Hc & Hall).
    pose proof (ret_sentinel st cs0 c Hret Hcs Hc) as Hcode.
    destruct (decide (code (ret st) = NotImplemented)); [|done]. simpl.
    repeat split; try done. right; left. repeat split; try done. eauto.
  - destruct Hhow as [Hr Hall]. simpl.
    repeat split; try done. right; right. done.
Qed.

(** *** The layout of the log *)

Lemma header_line_columns :
  header_line = String.concat "" ((λ n, n +:+ " ") <$> column_names).
Proof.
  unfold header_line, column_names.
  rewrite fmap_app, concat_empty_app, <- list_fmap_compose. done.
Qed.

Lemma row_of_call_columns (c : Call) :
  row_of_call c = String.concat " " (columns c).
Proof.
  unfold row_of_call, data_row, columns.
  rewrite <- app_comm_cons, concat_sep_cons, fmap_app, concat_empty_app.
  rewrite <- list_fmap_compose.
  cbn [fmap list_fmap app]. rewrite !concat_empty_cons.
  change (String.concat "" []) with "".
  rewrite string_app_nil_r, !string_app_assoc. done.
Qed.

(** C6. The lines sent to the log of a shard are the header line, once and
    first, then one line for each record evaluated without the sentinel, in
    the order of the shard; the header lists the column names, each followed
    by a space; the line of a record is its columns joined by single spaces:
    id, image path, the status code as an integer, xleft, ytop, width and
    height of the bounding box, then for every quality measure in the order
    of the enumeration its value, or NA when the assessment map has none.
    Unless the log is deleted for the sentinel, the file holds these lines. *)
Theorem log_layout implPtr inF outL fs lines :
  fs !! inF = Some lines → can_create outL = true → inF ≠ outL →
  let run := runQuality implPtr inF outL VectorQ fs in
  logStream (final run)
    = header_line :: (row_of_call <$> evaluated (calls (final run)))
  ∧ call_record <$> calls (final run)
    = take (length (calls (final run))) (read_records lines)
  ∧ header_line = String.concat "" ((λ n, n +:+ " ") <$> column_names)
  ∧ (∀ c, row_of_call c = String.concat " " (columns c))
  ∧ (∀ c e, qAssessments (call_assessment c) !! e = None →
            measure_cell (qAssessments (call_assessment c)) e = "NA")
  ∧ (code (ret (final run)) ≠ NotImplemented →
     files run !! outL = Some (logStream (final run))).
Proof.
  intros Hin Hout Hne run.
  destruct (runQuality_run implPtr inF outL fs lines Hin Hout Hne)
    as (Hrec & Hread & Hlog & Hend).
  fold run in Hrec, Hread, Hlog, Hend.
  split; [exact Hlog|]. split; [exact Hrec|].
  split; [apply header_line_columns|]. split; [apply row_of_call_columns|].
  split; [intros c e Hnone; unfold measure_cell; by rewrite Hnone|].
  intros Hcode.
  destruct Hend as [(_ & -> & _)|[(_ & _ & _ & Hni)|(_ & -> & _)]].
  - by rewrite lookup_delete_ne, lookup_insert_eq.
  - done.
  - by rewrite lookup_insert_eq.
Qed.

(** *** The sentinel *)

(** C2. When a call of [vectorQuality], the one for record [k] of the shard,
    returns NotImplemented, it is the last call of the run; the lines sent to
    the log are the header and those of the [k] records before it, so none
    for record [k] or a later one; the shard and the log are no longer on
    disk; and [runQuality] returns NOT_IMPLEMENTED, which is neither SUCCESS
    nor FAILURE as soon as util.h gives the three outcomes different
    values. *)
Theorem not_implemented_stops_shard implPtr inF outL fs k c :
  inF ≠ outL →
  NOT_IMPLEMENTED ≠ SUCCESS → NOT_IMPLEMENTED ≠ FAILURE →
  let run := runQuality implPtr inF outL VectorQ fs in
  calls (final run) !! k = Some c →
  code (call_status c) = NotImplemented →
  length (calls (final run)) = S k
  ∧ logStream (final run)
    = header_line :: (row_of_call <$> take k (calls (final run)))
  ∧ call_record <$> calls (final run)
    = take (S k) (read_records (default [] (fs !! inF)))
  ∧ files run !! inF = None
  ∧ files run !! outL = None
  ∧ outcome run = Return NOT_IMPLEMENTED
  ∧ outcome run ≠ Return SUCCESS
  ∧ outcome run ≠ Return FAILURE.
Proof.
  intros Hne Hns Hnf run Hk Hc.
  destruct (runQuality_call_opened implPtr inF outL fs) as (lines & Hin & Hout).
  { fold run. intros Hnil. by rewrite Hnil in Hk. }
  destruct (runQuality_run implPtr inF outL fs lines Hin Hout Hne)
    as (Hrec & Hread & Hlog & Hend).
  fold run in Hrec, Hread, Hlog, Hend. rewrite Hin. simpl.
  destruct Hend as [(_ & _ & _ & Hall & _)
                   |[(Hout' & Hfiles & (cs0 & c' & Hcs & Hc' & Hall) & _)
                    |(_ & _ & _ & Hall)]].
  - rewrite Forall_lookup in Hall. by destruct (Hall k c Hk).
  - assert (Hlen : k = length cs0).
    { destruct (decide (k < length cs0)%nat) as [Hlt|Hge].
      - rewrite Hcs, lookup_app_l in Hk by done.
        rewrite Forall_lookup in Hall. by destruct (Hall k c Hk).
      - apply lookup_lt_Some in Hk. rewrite Hcs, length_app in Hk. simpl in Hk. lia. }
    assert (Htake : take k (calls (final run)) = cs0)
      by (by rewrite Hcs, Hlen, take_app_length).
    split; [rewrite Hcs, length_app; simpl; lia|].
    split; [by rewrite Hlog, Htake, Hcs, evaluated_snoc_sentinel|].
    split.
    { rewrite Hrec. f_equal. rewrite Hcs, length_app. simpl. lia. }
    rewrite Hfiles, Hout'.
    split; [by rewrite lookup_delete_ne, lookup_delete_eq|].
    split; [by rewrite lookup_delete_eq|].
    repeat split; congruence.
  - rewrite Forall_lookup in Hall. by destruct (Hall k c Hk).
Qed.

(** *** Statuses that are not the sentinel *)

(** The decimal numeral that [operator<<] prints for the value of a code. *)
Lemma underlying_decimal rc : to_string (underlying rc) = ReturnCode_decimal rc.
Proof. by destruct rc. Qed.

(** A line that starts with three tokens, each followed by a space, is read
    back with these tokens first. *)
Lemma words_three a b c rest :
  token a → token b → token c →
  words (a +:+ " " +:+ b +:+ " " +:+ c +:+ " " +:+ rest) = a :: b :: c :: words rest.
Proof.
  intros [Ha Hna] [Hb Hnb] [Hc Hnc]. unfold words.
  rewrite words_from_no_space by done. change ("" +:+ a) with a.
  change (" " +:+ ?r) with (String " " r).
  rewrite words_from_space by done.
  rewrite words_from_no_space by done. change ("" +:+ b) with b.
  change (" " +:+ ?r) with (String " " r).
  rewrite words_from_space by done.
  rewrite words_from_no_space by done. change ("" +:+ c) with c.
  change (" " +:+ ?r) with (String " " r).
  by rewrite words_from_space.
Qed.

(** C5. When the call for record [k] returns a status that is neither
    Success nor NotImplemented, the line of that record is written (line
    [k + 1] of the log, after the header) and its third column is the status
    code as an integer: the line starts with the id and the image path of the
    record and the decimal numeral of the value that the enumeration gives to
    the code, each followed by a space, and read back at white space these are
    its first three fields. And the shard goes on: if it has a record
    [k + 1], either the image of that record is decoded and the call for it
    made, or its decoding fails and the process is killed. *)
Theorem failure_status_logged implPtr inF outL fs k c :
  inF ≠ outL →
  let run := runQuality implPtr inF outL VectorQ fs in
  calls (final run) !! k = Some c →
  code (call_status c) ≠ Success →
  code (call_status c) ≠ NotImplemented →
  logStream (final run) !! S k = Some (row_of_call c)
  ∧ row_of_call c = String.concat " " (columns c)
  ∧ columns c !! 2%nat = Some (to_string (underlying (code (call_status c))))
  ∧ (∃ rest, row_of_call c
             = id (call_record c) +:+ " " +:+ imagePath (call_record c) +:+ " "
               +:+ ReturnCode_decimal (code (call_status c)) +:+ " " +:+ rest)
  ∧ take 3 (words (row_of_call c))
    = [id (call_record c); imagePath (call_record c);
       ReturnCode_decimal (code (call_status c))]
  ∧ ∀ r', read_records (default [] (fs !! inF)) !! S k = Some r' →
       (∃ c', calls (final run) !! S k = Some c' ∧ call_record c' = r')
       ∨ (¬ readable r' ∧ outcome run = Signal SIGTERM).
Proof.
  intros Hne run Hk _ Hc.
  destruct (runQuality_call_opened implPtr inF outL fs) as (lines & Hin & Hout).
  { fold run. intros Hnil. by rewrite Hnil in Hk. }
  destruct (runQuality_run implPtr inF outL fs lines Hin Hout Hne)
    as (Hrec & Hread & Hlog & Hend).
  fold run in Hrec, Hread, Hlog, Hend. rewrite Hin. simpl.
  pose proof (lookup_lt_Some _ _ _ Hk) as Hklt.
  assert (Hnext : ∀ r', (S k < length (calls (final run)))%nat →
            read_records lines !! S k = Some r' →
            ∃ c', calls (final run) !! S k = Some c' ∧ call_record c' = r').
  { intros r' Hlt Hr'.
    destruct (call_of_record _ _ (S k) Hrec Hlt) as (c' & Hc' & Hrc').
    exists c'. split; [done|]. congruence. }
  assert (Hev : evaluated (calls (final run)) !! k = Some c).
  { destruct Hend as [(_ & _ & _ & Hall & _)
                     |[(_ & _ & (cs0 & c' & Hcs & Hc' & Hall) & _)
                      |(_ & _ & _ & Hall)]].
    - by rewrite evaluated_all.
    - rewrite Hcs, evaluated_snoc_sentinel by done.
      rewrite Hcs in Hk. apply lookup_app_Some in Hk as [Hk|[_ Hk]]; [done|].
      apply list_lookup_singleton_Some in Hk as [_ <-]. done.
    - by rewrite evaluated_all. }
  assert (Hrow : ∃ rest, row_of_call c
             = id (call_record c) +:+ " " +:+ imagePath (call_record c) +:+ " "
               +:+ ReturnCode_decimal (code (call_status c)) +:+ " " +:+ rest).
  { unfold row_of_call, data_row. rewrite underlying_decimal.
    eexists. rewrite !string_app_assoc. reflexivity. }
  assert (Htok : token (id (call_record c)) ∧ token (imagePath (call_record c))).
  { assert (Hr : call_record c ∈ read_records lines).
    { rewrite <- (take_drop (length (calls (final run))) (read_records lines)).
      apply elem_of_app. left. rewrite <- Hrec.
      apply list_elem_of_fmap_2. by eapply list_elem_of_lookup_2. }
    by apply read_records_token in Hr as (? & ? & _). }
  split; [by rewrite Hlog; simpl; rewrite list_lookup_fmap, Hev|].
  split; [apply row_of_call_columns|]. split; [done|].
  split; [exact Hrow|].
  split.
  { destruct Hrow as [rest ->], Htok as [Hid Hpath].
    rewrite words_three; [done..|].
    rewrite <- underlying_decimal. apply to_string_token. }
  intros r' Hr'.
  destruct Hend as [(_ & _ & Hlen & _)
                   |[(_ & _ & (cs0 & c' & Hcs & Hc' & Hall) & _)
                    |(Hsig & _ & (r & Hr & Hunread) & _)]].
  - left. apply Hnext; [|done]. rewrite Hlen. by apply lookup_lt_Some in Hr'.
  - left. apply Hnext; [|done]. rewrite Hcs, length_app. simpl.
    rewrite Hcs in Hk. apply lookup_app_Some in Hk as [Hk|[_ Hk]].
    + apply lookup_lt_Some in Hk. lia.
    + apply list_lookup_singleton_Some in Hk as [_ <-]. done.
  - destruct (decide (S k < length (calls (final run)))%nat) as [Hlt|Hge].
    + left. by apply Hnext.
    + right. assert (length (calls (final run)) = S k) as Heq by lia.
      rewrite Heq in Hr. by simplify_eq.
Qed.

(** *** Files *)

(** C7. For a shard and a log that are two paths: when [runQuality]
    returns, the shard is no longer on disk; the log is no longer on disk if
    a call returned the sentinel, and otherwise it is there and holds the
    lines written; and however the run ends, returning or killed, a manifest
    that is neither the shard nor the log of the run is as it was. *)
Theorem cleanup_on_return implPtr inF outL manifest fs :
  inF ≠ outL → manifest ≠ inF → manifest ≠ outL →
  let run := runQuality implPtr inF outL VectorQ fs in
  files run !! manifest = fs !! manifest
  ∧ ∀ v, outcome run = Return v →
      files run !! inF = None
      ∧ (Exists sentinel (calls (final run)) →
         v = NOT_IMPLEMENTED ∧ files run !! outL = None)
      ∧ (¬ Exists sentinel (calls (final run)) →
         v = SUCCESS ∧ files run !! outL = Some (logStream (final run))).
Proof.
  intros Hne Hm1 Hm2 run.
  assert (Hopen : (∃ lines, fs !! inF = Some lines ∧ can_create outL = true)
                  ∨ (outcome run = Signal SIGTERM ∧ files run = fs)).
  { unfold run, runQuality. destruct (fs !! inF) as [lines|]; [|by right].
    destruct (can_create outL); [left; eauto | by right]. }
  destruct Hopen as [(lines & Hin & Hout)|[Hsig Hfiles]].
  2: { split; [by rewrite Hfiles | intros v Hret; congruence]. }
  destruct (runQuality_run implPtr inF outL fs lines Hin Hout Hne)
    as (Hrec & Hread & Hlog & Hend).
  fold run in Hrec, Hread, Hlog, Hend.
  destruct Hend as [(Hout' & Hfiles & _ & Hall & _)
                   |[(Hout' & Hfiles & (cs0 & c' & Hcs & Hc' & Hall) & _)
                    |(Hsig & Hfiles & _)]].
  - rewrite Hfiles. split; [by rewrite lookup_delete_ne, lookup_insert_ne|].
    intros v Hret. split; [by rewrite lookup_delete_eq|].
    split; [intros Hex; apply Exists_exists in Hex as (c & Hc & Hs);
            rewrite Forall_forall in Hall; by destruct (Hall c Hc)|].
    intros _; split; [congruence|].
    by rewrite lookup_delete_ne, lookup_insert_eq.
  - rewrite Hfiles. split; [by rewrite !lookup_delete_ne, lookup_insert_ne|].
    intros v Hret. split; [by rewrite lookup_delete_ne, lookup_delete_eq|].
    split; [intros _; split; [congruence | by rewrite lookup_delete_eq]|].
    intros Hno; destruct Hno; rewrite Hcs; apply Exists_app; right.
    by constructor.
  - rewrite Hfiles. split; [by rewrite lookup_insert_ne|].
    intros v Hret. congruence.
Qed.

(** *** Images that cannot be decoded *)

(** C8. When [readImage] fails for record [k] of the shard -- the first
    record whose image cannot be decoded, reached without any call having
    returned the sentinel -- the process is killed by SIGTERM: [runQuality]
    does not return, the calls made are those for the [k] records before, the
    lines sent to the log are the header and the lines of these [k] records,
    and the shard is still on disk. *)
Theorem decode_failure_kills implPtr inF outL fs lines k r :
  fs !! inF = Some lines → can_create outL = true → inF ≠ outL →
  read_records lines !! k = Some r →
  ¬ readable r →
  (∀ j r', (j < k)%nat → read_records lines !! j = Some r' → readable r') →
  let run := runQuality implPtr inF outL VectorQ fs in
  ¬ Exists sentinel (calls (final run)) →
  outcome run = Signal SIGTERM
  ∧ (∀ v, outcome run ≠ Return v)
  ∧ call_record <$> calls (final run) = take k (read_records lines)
  ∧ logStream (final run) = header_line :: (row_of_call <$> calls (final run))
  ∧ length (logStream (final run)) = S k
  ∧ files run !! inF = Some lines.
Proof.
  intros Hin Hout Hne Hk Hunread Hfirst run Hno.
  destruct (runQuality_run implPtr inF outL fs lines Hin Hout Hne)
    as (Hrec & Hread & Hlog & Hend).
  fold run in Hrec, Hread, Hlog, Hend.
  assert (Hcalled : ¬ (k < length (calls (final run)))%nat).
  { intros Hlt. destruct (call_of_record _ _ k Hrec Hlt) as (c & Hc & Hrc).
    rewrite Forall_lookup in Hread. apply Hunread.
    assert (r = call_record c) as -> by congruence. by eapply Hread. }
  destruct Hend as [(_ & _ & Hlen & _)
                   |[(_ & _ & (cs0 & c' & Hcs & Hc' & _) & _)
                    |(Hsig & Hfiles & (r0 & Hr0 & Hunread0) & Hall)]].
  - apply lookup_lt_Some in Hk. lia.
  - destruct Hno. rewrite Hcs. apply Exists_app. right. by constructor.
  - assert (Hlen : length (calls (final run)) = k).
    { destruct (decide (length (calls (final run)) < k)%nat) as [Hlt|Hge]; [|lia].
      destruct Hunread0. by eapply Hfirst. }
    split; [done|]. split; [congruence|].
    split; [by rewrite Hrec, Hlen|].
    rewrite evaluated_all in Hlog by done.
    split; [done|].
    split; [rewrite Hlog; simpl; by rewrite length_fmap, Hlen|].
    by rewrite Hfiles, lookup_insert_ne.
Qed.

(** *** An empty shard *)

(** C10. For a shard with no record the loop is not entered: the only line
    sent to the log is the header, the shard is deleted, the log stays on
    disk with the header alone, no call is made, [ret] is still the status of
    the default constructor, whose code UnknownError is not NotImplemented,
    and [runQuality] returns SUCCESS. *)
Theorem empty_shard implPtr inF outL fs lines :
  fs !! inF = Some lines → can_create outL = true → inF ≠ outL →
  read_records lines = [] →
  let run := runQuality implPtr inF outL VectorQ fs in
  logStream (final run) = [header_line]
  ∧ calls (final run) = []
  ∧ files run !! inF = None
  ∧ files run !! outL = Some [header_line]
  ∧ ret (final run) = ReturnStatus_default
  ∧ code (ret (final run)) = UnknownError
  ∧ code (ret (final run)) ≠ NotImplemented
  ∧ outcome run = Return SUCCESS.
Proof.
  intros Hin Hout Hne Hrecords run. subst run.
  rewrite (runQuality_opened implPtr inF outL fs lines Exhausted
             (loop_entry implPtr [header_line]) Hin Hout Hne)
    by (by rewrite Hrecords).
  simpl. repeat split; try done.
  - apply lookup_delete_eq.
  - by rewrite lookup_delete_ne, lookup_insert_eq.
Qed.

(** ** The split of the manifest *)

Lemma split_blocks_length {A} n q r (l : list A) :
  length (split_blocks n q r l) = n.
Proof. revert r l. induction n as [|n IH]; intros r l; simpl; [done | by rewrite IH]. Qed.

Lemma split_blocks_concat {A} n q r (l : list A) :
  (length l = n * q + r)%nat → (r ≤ n)%nat →
  concat (split_blocks n q r l) = l.
Proof.
  revert r l. induction n as [|n IH]; intros r l Hlen Hr; simpl.
  - destruct l; [done | simpl in Hlen; lia].
  - set (k := (q + (if decide (r = 0%nat) then 0 else 1))%nat).
    assert (Hk : (length (drop k l) = n * q + Nat.pred r)%nat).
    { rewrite length_drop. unfold k. destruct (decide (r = 0%nat)); lia. }
    rewrite (IH (Nat.pred r) (drop k l) Hk) by lia. apply take_drop.
Qed.

Lemma write_files_other contents fs p :
  p ∉ contents.*1 → write_files contents fs !! p = fs !! p.
Proof.
  unfold write_files. revert fs.
  induction contents as [|[p' b'] contents IH]; intros fs Hp; [done|].
  simpl in *. apply not_elem_of_cons in Hp as [Hne Hp].
  rewrite IH by done. by rewrite lookup_insert_ne.
Qed.

Lemma write_files_lookup paths blocks fs :
  NoDup paths → length paths = length blocks →
  Forall2 (λ p b, write_files (zip paths blocks) fs !! p = Some b) paths blocks.
Proof.
  revert blocks fs. induction paths as [|p paths IH];
    intros [|b blocks] fs Hnd Hlen; try done.
  apply NoDup_cons in Hnd as [Hp Hnd]. simpl in Hlen.
  constructor.
  - change (write_files (zip paths blocks) (<[p:=b]> fs) !! p = Some b).
    rewrite write_files_other; [apply lookup_insert_eq|].
    intros Hin. apply Hp. apply list_elem_of_fmap in Hin as ([p' b'] & -> & Hin).
    by apply elem_of_zip_l in Hin.
  - apply (IH blocks (<[p:=b]> fs)); [done | lia].
Qed.

Lemma read_records_app ls ls' :
  Forall one_record ls →
  read_records (ls ++ ls') = read_records ls ++ read_records ls'.
Proof.
  unfold read_records. induction 1 as [|l ls Hl _ IH]; [done|].
  unfold one_record in Hl.
  rewrite <- app_comm_cons, !fmap_cons, !concat_cons.
  destruct (words l) as [|a [|b [|c [|d ws]]]]; try done.
  change (triples (a :: b :: c :: concat (words <$> ls ++ ls'))
          = triples (a :: b :: c :: concat (words <$> ls))
            ++ triples (concat (words <$> ls'))).
  cbn [triples]. by rewrite IH.
Qed.

Lemma read_records_concat (shards : list (list string)) :
  Forall one_record (concat shards) →
  read_records (concat shards) = concat (read_records <$> shards).
Proof.
  induction shards as [|b shards IH]; [done|]. simpl. intros Hall.
  apply Forall_app in Hall as [Hb Hrest].
  by rewrite read_records_app, IH.
Qed.

(** C4. Under the model of [splitInputFile] taken from the specification:
    for a manifest of M lines, one record a line, and N >= 1 shards that can
    all be written under different names, the call succeeds and returns the N
    shard paths in order; the shard files, put one after the other in that
    order, are the M lines of the manifest in their order, their sizes add up
    to M, and when every line holds one record the records that the evaluator
    reads from the shards are, in order, those it would read from the
    manifest. *)
Theorem split_complete inputFile outputDir N fs lines :
  1 ≤ N →
  fs !! inputFile = Some lines →
  let paths := shardPath outputDir <$> seq 0 (Z.to_nat N) in
  forallb can_create paths = true →
  NoDup paths →
  ∃ fs' shards,
    splitInputFile inputFile outputDir N fs = (SUCCESS, paths, fs')
    ∧ length shards = Z.to_nat N
    ∧ Forall2 (λ p b, fs' !! p = Some b) paths shards
    ∧ concat shards = lines
    ∧ sum_list (length <$> shards) = length lines
    ∧ (Forall one_record lines →
       concat (read_records <$> shards) = read_records lines).
Proof.
  intros HN Hin paths Hcreate Hnd. subst paths.
  set (paths := shardPath outputDir <$> seq 0 (Z.to_nat N)) in *.
  set (n := Z.to_nat N) in *.
  set (shards := split_blocks n (length lines `div` n)%nat
                   (length lines `mod` n)%nat lines).
  assert (Hn : (n ≠ 0)%nat) by (unfold n; lia).
  assert (Hconcat : concat shards = lines).
  { apply split_blocks_concat.
    - rewrite (Nat.div_mod_eq (length lines) n) at 1. lia.
    - pose proof (Nat.mod_upper_bound (length lines) n Hn). lia. }
  exists (write_files (zip paths shards) fs), shards.
  split; [unfold splitInputFile; rewrite Hin; cbv zeta; fold n; fold paths;
          by rewrite Hcreate|].
  split; [apply split_blocks_length|].
  split.
  { apply write_files_lookup; [done|].
    unfold paths, shards. by rewrite length_fmap, length_seq, split_blocks_length. }
  split; [done|].
  split; [by rewrite <- length_concat, Hconcat|].
  intros Hall. rewrite <- read_records_concat, Hconcat; [done|].
  by rewrite Hconcat.
Qed.

(** ** main *)

(** *** The version gate *)

Lemma main_versions_match v executable args fs fork_ok waits :
  versions_match v →
  main v executable args fs fork_ok waits =
  match args with
  | [] => usage executable
  | actionstr :: flags =>
      match parse_flags flags Config_default with
      | Unrecognized flag =>
          ([Cerr ("[ERROR] Unrecognized flag: " +:+ flag);
            Cerr (usage_line executable)], Exit EXIT_FAILURE)
      | Null_argument => ([], Undefined)
      | Parsed_ok c =>
          if decide (mapStringToAction actionstr = VectorQ)
          then main {| FRVT_STRUCTS_MAJOR_VERSION := currStructsMajorVersion;
                       FRVT_STRUCTS_MINOR_VERSION := currStructsMinorVersion;
                       API_MAJOR_VERSION := currAPIMajorVersion;
                       API_MINOR_VERSION := currAPIMinorVersion |}
                    executable args fs fork_ok waits
          else ([Cerr ("Unknown command: " +:+ actionstr);
                 Cerr (usage_line executable)], Exit EXIT_FAILURE)
      end
  end.
Proof.
  intros (H1 & H2 & H3 & H4). destruct v as [a b c d]. simpl in *. subst.
  unfold main. simpl.
  destruct args as [|actionstr flags]; [done|].
  destruct (parse_flags flags Config_default); try done.
  by destruct (decide _).
Qed.

(** Whenever a version pair is not the expected one, [main] prints one line
    and returns FAILURE: nothing is called, no child is made. *)
Lemma version_gate_aborts v executable args fs fork_ok waits :
  ¬ versions_match v →
  ∃ line, main v executable args fs fork_ok waits = ([Cerr line], Return FAILURE).
Proof.
  intros Hv. unfold main.
  destruct (bool_decide (FRVT_STRUCTS_MAJOR_VERSION v = currStructsMajorVersion))
    eqn:H1; [apply bool_decide_eq_true in H1|simpl; eauto].
  destruct (bool_decide (FRVT_STRUCTS_MINOR_VERSION v = currStructsMinorVersion))
    eqn:H2; [apply bool_decide_eq_true in H2|simpl; eauto].
  destruct (bool_decide (API_MAJOR_VERSION v = currAPIMajorVersion))
    eqn:H3; [apply bool_decide_eq_true in H3|simpl; eauto].
  destruct (bool_decide (API_MINOR_VERSION v = currAPIMinorVersion))
    eqn:H4; [apply bool_decide_eq_true in H4|simpl; eauto].
  by destruct Hv.
Qed.

(** C3. With the data-contract pair as expected, (3,0), and the interface
    pair (4,0) instead of (4,1), [main] returns FAILURE and nothing is called;
    but the line it prints gives 4.0 as the version to re-build with, where
    the expected interface version is 4.1: line 146 prints
    [currStructsMinorVersion] in the place of [currAPIMinorVersion]. *)
Theorem api_mismatch_diagnostic executable args fs fork_ok waits :
  main {| FRVT_STRUCTS_MAJOR_VERSION := 3; FRVT_STRUCTS_MINOR_VERSION := 0;
          API_MAJOR_VERSION := 4; API_MINOR_VERSION := 0 |}
       executable args fs fork_ok waits
  = ([Cerr ("[ERROR] You've compiled your library with an old version of the API header file: "
            +:+ "4.0.  Please re-build with the latest version:4.0.")],
     Return FAILURE).
Proof. reflexivity. Qed.

(** *** The command line *)

Lemma flag_assignment_known flag :
  flag ∈ known_flags → is_Some (flag_assignment flag).
Proof.
  unfold known_flags, flag_assignment. intros Hin.
  repeat (apply elem_of_cons in Hin as [->|Hin]; [by eexists|]).
  by apply elem_of_nil in Hin.
Qed.

Lemma flag_assignment_unknown flag :
  flag ∉ known_flags → flag_assignment flag = None.
Proof.
  unfold known_flags, flag_assignment. intros Hnot.
  repeat (destruct (decide _) as [->|_];
          [exfalso; apply Hnot; by apply (bool_decide_unpack _)|]).
  done.
Qed.

Lemma parse_flags_unrecognized pairs flag rest c :
  Forall (λ p, p.1 ∈ known_flags) pairs → flag ∉ known_flags →
  parse_flags (flag_arguments pairs ++ flag :: rest) c = Unrecognized flag.
Proof.
  intros Hpairs Hflag. revert c.
  induction Hpairs as [|[f a] pairs Hf _ IH]; intros c.
  - simpl. by rewrite flag_assignment_unknown.
  - unfold flag_arguments. simpl.
    destruct (flag_assignment_known f Hf) as [assign ->]. apply IH.
Qed.

(** C9, as the code has it. Once the version gate is passed, when the
    action is missing or the loop over the flags meets an argument that is
    none of -c, -o, -h, -i and -t, [main] prints the usage line last and
    ends through [exit(EXIT_FAILURE)], and all it did before was to print on
    [cerr]: [getImplementation] and [initialize] are not called and no child
    is made. *)
Theorem usage_on_refused_command_line v executable args fs fork_ok waits :
  versions_match v → refused args →
  ∃ ev, main v executable args fs fork_ok waits = (ev, Exit EXIT_FAILURE)
      ∧ last ev = Some (Cerr (usage_line executable))
      ∧ Forall (λ e, ∃ line, e = Cerr line) ev.
Proof.
  intros Hv Hargs. rewrite main_versions_match by done.
  destruct Hargs as [->|(a & pairs & flag & rest & -> & Hpairs & Hflag)].
  - eexists. split; [reflexivity|]. split; [done|]. repeat constructor. eauto.
  - rewrite parse_flags_unrecognized by done.
    eexists. split; [reflexivity|]. split; [done|]. repeat constructor; eauto.
Qed.

(** *** The children *)

(** The child made for a shard runs [runQuality] on it. *)
Lemma child_VectorQ implPtr c i shard fs :
  child implPtr c VectorQ i shard fs
  = runQuality implPtr shard (log_path c i) VectorQ fs.
Proof. unfold child. by destruct (decide (VectorQ = VectorQ)). Qed.


(** Each child reaped overwrites [exitStatus]. *)
Lemma wait_loop_cons n cpid w ws exitStatus :
  (wait_loop (S n) ((cpid, w) :: ws) exitStatus).2
  = (wait_loop n ws (status_of w)).2.
Proof.
  cbn [wait_loop]. destruct w; simpl; by destruct (wait_loop n ws _).
Qed.

(** After the loop of lines 232-247 [exitStatus] is what the child reaped
    last left in it. *)
Lemma wait_loop_last ws cpid w exitStatus :
  (wait_loop (S (length ws)) (ws ++ [(cpid, w)]) exitStatus).2
  = Some (status_of w).
Proof.
  revert exitStatus. induction ws as [|[p w'] ws IH]; intros exitStatus.
  - rewrite app_nil_l. by rewrite wait_loop_cons.
  - rewrite <- app_comm_cons. cbn [length]. by rewrite wait_loop_cons, IH.
Qed.

(** C1. Two children are reaped: the first was killed by a signal, the
    second exited with SUCCESS. [main] returns SUCCESS: the status of the
    second child overwrites the FAILURE that the first one left in
    [exitStatus]. *)
Theorem killed_child_forgotten cpid1 cpid2 sig :
  (wait_children true 2
     [(cpid1, W_SIGNALED sig); (cpid2, W_EXITED SUCCESS)] SUCCESS).2
  = Return SUCCESS.
Proof. reflexivity. Qed.

(** * Further properties of the driver *)

(** ** runQuality: streams that cannot be opened *)

(** X1. When the shard cannot be opened, or the log cannot, the process is
    killed by SIGTERM before anything is done: no file is changed or made (a
    log left by an earlier run is not truncated when it is the shard that is
    missing), no call is made, and one line is printed on [cerr], which names
    the stream that failed: the shard when it is missing, whether the log can
    be opened or not, and the log when the shard is there. *)
Theorem open_failure_kills implPtr inF outL action fs :
  fs !! inF = None ∨ can_create outL = false →
  let run := runQuality implPtr inF outL action fs in
  outcome run = Signal SIGTERM
  ∧ files run = fs
  ∧ calls (final run) = []
  ∧ logStream (final run) = []
  ∧ (fs !! inF = None →
     cerr (final run) = ["[ERROR] Failed to open stream for " +:+ inF +:+ "."])
  ∧ (is_Some (fs !! inF) →
     cerr (final run) = ["[ERROR] Failed to open stream for " +:+ outL +:+ "."]).
Proof.
  intros Hfail. unfold runQuality.
  destruct (fs !! inF) as [lines|] eqn:Hin.
  - destruct Hfail as [?|Hout]; [done|]. rewrite Hout. simpl.
    repeat split; done.
  - simpl. repeat split; done.
Qed.

(** ** runQuality: the files it touches *)

Lemma remove_other path p fs ce :
  p ≠ path → (remove path fs ce).1 !! p = fs !! p.
Proof.
  intros Hne. unfold remove. destruct (fs !! path); simpl; [|done].
  by rewrite lookup_delete_ne.
Qed.

(** X2. However a run ends, and whatever the action, every file but the shard
    and its log is left as it was. *)
Theorem other_files_untouched implPtr inF outL action fs p :
  p ≠ inF → p ≠ outL →
  files (runQuality implPtr inF outL action fs) !! p = fs !! p.
Proof.
  intros Hin Hout. unfold runQuality.
  destruct (fs !! inF) as [lines|]; [|done].
  destruct (can_create outL); [|done]. cbv zeta. cbn [negb].
  set (hdr := if decide (action = VectorQ) then [header_line] else []).
  destruct (quality_loop _ _ _) as [how st].
  set (fs2 := <[outL:=logStream st]> (<[outL:=hdr]> fs)).
  assert (Hfs2 : fs2 !! p = fs !! p)
    by (unfold fs2; by rewrite !lookup_insert_ne).
  pose proof (remove_other inF p fs2 (cerr st) Hin) as Hfs3.
  destruct (remove inF fs2 (cerr st)) as [fs3 cerr3]. simpl in Hfs3.
  pose proof (remove_other outL p fs3 cerr3 Hout) as Hfs4.
  destruct (remove outL fs3 cerr3) as [fs4 cerr4]. simpl in Hfs4.
  destruct how; [ | | simpl; exact Hfs2];
    destruct (decide (code (ret st) = NotImplemented)); simpl; congruence.
Qed.

(** ** runQuality: an action that is not VectorQ *)

(** With an action other than VectorQ the loop only decodes the images: it
    goes through a shard whose images can all be decoded and leaves its
    variables as they were, *)
Lemma quality_loop_other_exhausted action records st :
  action ≠ VectorQ → code (ret st) ≠ NotImplemented →
  Forall readable records →
  quality_loop action records st = (Exhausted, st).
Proof.
  intros Ha Hret Hall. induction Hall as [|r rest [image Himg] _ IH]; [done|].
  simpl. rewrite Himg.
  destruct (decide (action = VectorQ)) as [?|_]; [done|].
  destruct (decide (code (ret st) = NotImplemented)) as [?|_]; [done|].
  by rewrite LoopState_eta.
Qed.

(** and it is left at the first image that cannot be decoded, with one line
    on [cerr]. *)
Lemma quality_loop_other_raised action pre r post st :
  action ≠ VectorQ → code (ret st) ≠ NotImplemented →
  Forall readable pre → ¬ readable r →
  quality_loop action (pre ++ r :: post) st
  = (Raised, {| impl := impl st; ret := ret st; logStream := logStream st;
                cerr := cerr st ++ [decode_message r]; calls := calls st |}).
Proof.
  intros Ha Hret Hall Hr. induction Hall as [|r0 rest [image Himg] _ IH].
  - simpl. destruct (readImage (imagePath r)) as [image|] eqn:Himg; [|done].
    destruct Hr. by exists image.
  - simpl. rewrite Himg.
    destruct (decide (action = VectorQ)) as [?|_]; [done|].
    destruct (decide (code (ret st) = NotImplemented)) as [?|_]; [done|].
    by rewrite LoopState_eta.
Qed.

(** X3. With an action other than VectorQ the implementation is never called and
    nothing is written, not even the header. The images are decoded all the
    same: once both streams are open, the run returns SUCCESS, with the shard
    removed, an empty log left and nothing on [cerr], when every image of the
    shard can be decoded; and it is killed by SIGTERM at the first image that
    cannot, with the line that names this image on [cerr], the shard still
    there and an empty log left. *)
Theorem other_action_writes_nothing implPtr inF outL action fs :
  action ≠ VectorQ → inF ≠ outL →
  let run := runQuality implPtr inF outL action fs in
  calls (final run) = []
  ∧ logStream (final run) = []
  ∧ impl (final run) = implPtr
  ∧ (outcome run = Signal SIGTERM
     ∨ (outcome run = Return SUCCESS
        ∧ files run !! inF = None ∧ files run !! outL = Some []))
  ∧ ∀ lines, fs !! inF = Some lines → can_create outL = true →
      (Forall readable (read_records lines) →
       outcome run = Return SUCCESS
       ∧ cerr (final run) = []
       ∧ files run !! inF = None ∧ files run !! outL = Some [])
      ∧ (∀ pre r post, read_records lines = pre ++ r :: post →
           Forall readable pre → ¬ readable r →
           outcome run = Signal SIGTERM
           ∧ cerr (final run) = [decode_message r]
           ∧ files run !! inF = Some lines ∧ files run !! outL = Some []).
Proof.
  intros Ha Hne. unfold runQuality.
  destruct (fs !! inF) as [lines|] eqn:Hin;
    [|simpl; repeat split; try done; by left].
  destruct (can_create outL);
    [|simpl; repeat split; try done; by left]. simpl.
  destruct (decide (action = VectorQ)) as [?|_]; [done|].
  rewrite lookup_insert_ne, Hin by done. simpl.
  set (st0 := {| impl := implPtr; ret := ReturnStatus_default; logStream := [];
                 cerr := []; calls := [] |}).
  assert (Hrm : ∀ ce, remove inF (<[outL:=[]]> fs) ce
                      = (delete inF (<[outL:=[]]> fs), ce)).
  { intros ce. unfold remove. by rewrite lookup_insert_ne, Hin by done. }
  assert (Hcases : Forall readable (read_records lines)
                   ∨ ∃ pre r post, read_records lines = pre ++ r :: post
                       ∧ Forall readable pre ∧ ¬ readable r).
  { induction (read_records lines) as [|r rest IH]; [by left|].
    destruct (readImage (imagePath r)) as [image|] eqn:Himg.
    - assert (readable r) by (by exists image).
      destruct IH as [Hall|(pre & r' & post & -> & Hpre & Hr')].
      + left. by constructor.
      + right. exists (r :: pre), r', post. repeat split; [by constructor|done].
    - right. exists [], r, rest. repeat split; [constructor|].
      unfold readable. rewrite Himg. by intros [? ?]. }
  assert (Hexh : Forall readable (read_records lines) →
            quality_loop action (read_records lines) st0 = (Exhausted, st0))
    by (by apply quality_loop_other_exhausted).
  assert (Hrai : ∀ pre r post, read_records lines = pre ++ r :: post →
            Forall readable pre → ¬ readable r →
            quality_loop action (read_records lines) st0
            = (Raised, {| impl := implPtr; ret := ReturnStatus_default;
                          logStream := []; cerr := [decode_message r];
                          calls := [] |})).
  { intros pre r post -> Hpre Hr.
    by rewrite (quality_loop_other_raised action pre r post st0). }
  assert (Hfin : ∀ lines', Some lines = Some lines' → lines' = lines)
    by (intros ? [=]; done).
  destruct Hcases as [Hall|(pre & r & post & Hsplit & Hpre & Hr)].
  - rewrite (Hexh Hall). simpl. rewrite insert_insert_eq, Hrm. simpl.
    assert (Hgone : delete inF (<[outL:=[]]> fs) !! inF = None)
      by apply lookup_delete_eq.
    assert (Hlog : delete inF (<[outL:=[]]> fs) !! outL = Some [])
      by (by rewrite lookup_delete_ne, lookup_insert_eq).
    split; [done|]. split; [done|]. split; [done|]. split; [by right|].
    intros lines' Hl _. apply Hfin in Hl as ->. split; [by intros _|].
    intros pre r post Hsplit Hpre Hr. destruct Hr. rewrite Hsplit in Hall.
    apply Forall_app in Hall as [_ Hall]. by inversion Hall.
  - rewrite (Hrai pre r post Hsplit Hpre Hr). simpl. rewrite insert_insert_eq.
    assert (Hshard : <[outL:=[]]> fs !! inF = Some lines)
      by (by rewrite lookup_insert_ne).
    assert (Hlog : <[outL:=[]]> fs !! outL = Some []) by apply lookup_insert_eq.
    split; [done|]. split; [done|]. split; [done|]. split; [by left|].
    intros lines' Hl _. apply Hfin in Hl as ->. split.
    + intros Hall. destruct Hr. rewrite Hsplit in Hall.
      apply Forall_app in Hall as [_ Hall]. by inversion Hall.
    + intros pre' r' post' Hsplit' Hpre' Hr'.
      assert (r' = r) as ->; [|done].
      rewrite Hsplit in Hsplit'. clear -Hsplit' Hpre Hr Hpre' Hr'.
      revert pre' Hsplit' Hpre'.
      induction Hpre as [|x pre Hx _ IH]; intros pre' Hsplit' Hpre'.
      * destruct Hpre' as [|y pre' Hy _]; simpl in Hsplit'; [congruence|].
        destruct Hr. congruence.
      * destruct Hpre' as [|y pre' Hy Hpre']; simpl in Hsplit'.
        -- destruct Hr'. congruence.
        -- injection Hsplit' as _ Hsplit'. by eapply IH.
Qed.

(** ** runQuality: a shard processed to its end *)

(** X4. When every image of the shard can be decoded and no call returns the
    sentinel, [runQuality] returns SUCCESS after one call for each record, in
    the order of the shard: the log holds the header and one line a record,
    and the ids of its lines are those of the shard in the same order. *)
Theorem all_records_evaluated implPtr inF outL fs lines :
  fs !! inF = Some lines → can_create outL = true → inF ≠ outL →
  Forall readable (read_records lines) →
  let run := runQuality implPtr inF outL VectorQ fs in
  ¬ Exists sentinel (calls (final run)) →
  outcome run = Return SUCCESS
  ∧ call_record <$> calls (final run) = read_records lines
  ∧ logStream (final run) = header_line :: (row_of_call <$> calls (final run))
  ∧ length (logStream (final run)) = S (length (read_records lines))
  ∧ (λ c, id (call_record c)) <$> calls (final run) = id <$> read_records lines
  ∧ files run !! outL = Some (logStream (final run)).
Proof.
  intros Hin Hout Hne Hall run Hno.
  destruct (runQuality_run implPtr inF outL fs lines Hin Hout Hne)
    as (Hrec & Hread & Hlog & Hend).
  fold run in Hrec, Hread, Hlog, Hend.
  destruct Hend as [(Hout' & Hfiles & Hlen & Hns & _)
                   |[(_ & _ & (cs0 & c' & Hcs & Hc' & _) & _)
                    |(_ & _ & (r & Hr & Hunread) & _)]].
  - rewrite Hlen, firstn_all in Hrec.
    rewrite evaluated_all in Hlog by done.
    split; [done|]. split; [done|]. split; [done|].
    split; [rewrite Hlog; simpl; by rewrite length_fmap, Hlen|].
    split; [by rewrite <- Hrec, <- list_fmap_compose|].
    by rewrite Hfiles, lookup_delete_ne, lookup_insert_eq.
  - destruct Hno. rewrite Hcs. apply Exists_app. right. by constructor.
  - destruct Hunread. rewrite Forall_lookup in Hall. by eapply Hall.
Qed.

(** ** runQuality: what it prints *)

Lemma quality_loop_cerr records st how st' :
  quality_loop VectorQ records st = (how, st') →
  match how with
  | Raised => ∃ pre r post, records = pre ++ r :: post
                ∧ Forall readable pre ∧ ¬ readable r
                ∧ cerr st' = cerr st ++ [decode_message r]
  | _ => cerr st' = cerr st
  end.
Proof.
  revert st. induction records as [|r rest IH]; intros st Hrun.
  - simpl in Hrun. by injection Hrun as <- <-.
  - rewrite quality_loop_cons in Hrun.
    destruct (readImage (imagePath r)) as [image|] eqn:Himg.
    + destruct (vectorQuality _ _ _) as [[i s] a].
      destruct (decide (code s = NotImplemented)).
      * by injection Hrun as <- <-.
      * apply IH in Hrun. destruct how; try done.
        destruct Hrun as (pre & r' & post & -> & Hpre & Hr' & Hcerr).
        exists (r :: pre), r', post. repeat split; try done.
        constructor; [|done]. unfold readable. rewrite Himg. eauto.
    + injection Hrun as <- <-. exists [], r, rest. repeat split; try done.
      unfold readable. rewrite Himg. by intros [? ?].
Qed.

(** X5. A run that returns has printed nothing on [cerr]; a run killed in its
    loop has printed one line, which names the first image of the shard that
    cannot be decoded. *)
Theorem runQuality_diagnostics implPtr inF outL fs lines :
  fs !! inF = Some lines → can_create outL = true → inF ≠ outL →
  let run := runQuality implPtr inF outL VectorQ fs in
  (∃ v, outcome run = Return v ∧ cerr (final run) = [])
  ∨ (outcome run = Signal SIGTERM
     ∧ ∃ pre r post, read_records lines = pre ++ r :: post
         ∧ Forall readable pre ∧ ¬ readable r
         ∧ cerr (final run) = [decode_message r]).
Proof.
  intros Hin Hout Hne.
  destruct (quality_loop VectorQ (read_records lines)
              (loop_entry implPtr [header_line])) as [how st] eqn:Hloop.
  rewrite (runQuality_opened _ _ _ _ _ _ _ Hin Hout Hne Hloop).
  apply quality_loop_cerr in Hloop. simpl in *.
  destruct how.
  - left. destruct (decide _); eauto.
  - left. destruct (decide _); eauto.
  - right. split; [done|]. done.
Qed.

(** ** main: the flags *)

Lemma assign_all_cons f a pairs c :
  assign_all ((f, a) :: pairs) c
  = assign_all pairs (match flag_assignment f with
                      | Some assign => assign a c
                      | None => c
                      end).
Proof. reflexivity. Qed.

Lemma parse_flags_app pairs rest c :
  Forall (λ p, p.1 ∈ known_flags) pairs →
  parse_flags (flag_arguments pairs ++ rest) c
  = parse_flags rest (assign_all pairs c).
Proof.
  intros Hpairs. revert c.
  induction Hpairs as [|[f a] pairs Hf _ IH]; intros c; [done|].
  rewrite assign_all_cons. unfold flag_arguments. simpl.
  destruct (flag_assignment_known f Hf) as [assign ->]. apply IH.
Qed.

(** One assignment leaves the variables of the other flags as they are. *)
Lemma assign_other f g a b assign_f assign_g c :
  flag_assignment f = Some assign_f → flag_assignment g = Some assign_g →
  f ≠ g → assign_f a c = c → assign_f a (assign_g b c) = assign_g b c.
Proof.
  unfold flag_assignment. intros Hf Hg Hne Hc. destruct c.
  repeat (destruct (decide (f = _)) as [->|?]); simplify_eq;
    repeat (destruct (decide (g = _)) as [->|?]); simplify_eq;
    simpl in *; congruence.
Qed.

Lemma assign_twice f a assign c :
  flag_assignment f = Some assign → assign a (assign a c) = assign a c.
Proof.
  unfold flag_assignment. intros Hf.
  repeat (destruct (decide (f = _)) as [->|?]); by simplify_eq.
Qed.

Lemma assign_all_keeps f a assign post c :
  flag_assignment f = Some assign → f ∉ post.*1 → assign a c = c →
  assign a (assign_all post c) = assign_all post c.
Proof.
  intros Hf. revert c. induction post as [|[g b] post IH]; intros c Hpost Hc; [done|].
  simpl in Hpost. apply not_elem_of_cons in Hpost as [Hne Hpost].
  rewrite assign_all_cons. apply IH; [done|].
  destruct (flag_assignment g) as [assign_g|] eqn:Hg; [|done].
  by eapply assign_other.
Qed.

Lemma assign_all_app pre post c :
  assign_all (pre ++ post) c = assign_all post (assign_all pre c).
Proof. unfold assign_all. by rewrite foldl_app. Qed.

(** A field that no flag of the list assigns keeps its value. *)
Lemma assign_all_field {A} (field : Config → A) f pairs c :
  (∀ g b assign c', flag_assignment g = Some assign → g ≠ f →
                    field (assign b c') = field c') →
  f ∉ pairs.*1 → field (assign_all pairs c) = field c.
Proof.
  intros Hfield. revert c. induction pairs as [|[g b] pairs IH]; intros c Hf; [done|].
  simpl in Hf. apply not_elem_of_cons in Hf as [Hne Hf].
  rewrite assign_all_cons, IH by done.
  destruct (flag_assignment g) as [assign|] eqn:Hg; [|done].
  by eapply Hfield.
Qed.

(** X9. Any list of the five flags, each followed by a value, is accepted,
    whatever the values are (a value that looks like a flag is a value). A
    flag that is not given leaves its variable as it was, so at its default
    when the parse starts from the defaults; and a flag given several times
    has the value of its last occurrence: assigning that value again to the
    result changes nothing. *)
Theorem flags_accepted pairs c :
  Forall (λ p, p.1 ∈ known_flags) pairs →
  let c' := assign_all pairs c in
  parse_flags (flag_arguments pairs) c = Parsed_ok c'
  ∧ ("-c" ∉ pairs.*1 → configDir c' = configDir c)
  ∧ ("-o" ∉ pairs.*1 → outputDir c' = outputDir c)
  ∧ ("-h" ∉ pairs.*1 → outputFileStem c' = outputFileStem c)
  ∧ ("-i" ∉ pairs.*1 → inputFile c' = inputFile c)
  ∧ ("-t" ∉ pairs.*1 → numForks c' = numForks c)
  ∧ (∀ pre f a post assign,
       pairs = pre ++ (f, a) :: post → f ∉ post.*1 →
       flag_assignment f = Some assign → assign a c' = c').
Proof.
  intros Hpairs c'.
  split.
  { pose proof (parse_flags_app pairs [] c Hpairs) as H. by rewrite app_nil_r in H. }
  assert (Hfield : ∀ {A} (field : Config → A) f,
            (∀ g b assign c', flag_assignment g = Some assign → g ≠ f →
                              field (assign b c') = field c') →
            f ∉ pairs.*1 → field c' = field c)
    by (intros A field f Hf Hnot; by eapply assign_all_field).
  repeat split.
  - apply (Hfield _ configDir "-c"). unfold flag_assignment.
    intros g b assign c0 Hg Hne.
    repeat (destruct (decide (g = _)) as [->|?]); by simplify_eq.
  - apply (Hfield _ outputDir "-o"). unfold flag_assignment.
    intros g b assign c0 Hg Hne.
    repeat (destruct (decide (g = _)) as [->|?]); by simplify_eq.
  - apply (Hfield _ outputFileStem "-h"). unfold flag_assignment.
    intros g b assign c0 Hg Hne.
    repeat (destruct (decide (g = _)) as [->|?]); by simplify_eq.
  - apply (Hfield _ inputFile "-i"). unfold flag_assignment.
    intros g b assign c0 Hg Hne.
    repeat (destruct (decide (g = _)) as [->|?]); by simplify_eq.
  - apply (Hfield _ numForks "-t"). unfold flag_assignment.
    intros g b assign c0 Hg Hne.
    repeat (destruct (decide (g = _)) as [->|?]); by simplify_eq.
  - intros pre f a post assign -> Hpost Hf. unfold c'.
    rewrite assign_all_app, assign_all_cons, Hf.
    apply (assign_all_keeps f); [done..|]. by apply (assign_twice f).
Qed.

(** X10. When the last argument is one of the five flags, with no value after
    it, the loop reads [argv[argc]], a null pointer, as the value: the
    behaviour is undefined, and nothing was printed or called before. *)
Theorem trailing_flag_undefined v executable actionstr pairs flag fs fork_ok waits :
  versions_match v →
  Forall (λ p, p.1 ∈ known_flags) pairs → flag ∈ known_flags →
  main v executable (actionstr :: flag_arguments pairs ++ [flag]) fs fork_ok waits
  = ([], Undefined).
Proof.
  intros Hv Hpairs Hflag. rewrite main_versions_match by done.
  rewrite parse_flags_app by done. simpl.
  by destruct (flag_assignment_known flag Hflag) as [assign ->].
Qed.

(** ** main: from the command line to the children *)

(** [main] once the versions are checked and the flags read. *)
Lemma main_parsed v executable actionstr flags c fs fork_ok waits :
  versions_match v → parse_flags flags Config_default = Parsed_ok c →
  main v executable (actionstr :: flags) fs fork_ok waits =
  if decide (mapStringToAction actionstr = VectorQ)
  then
    let '(implPtr, ret) := initialize getImplementation (configDir c) in
    if decide (code ret = Success)
    then
      let '(status, inputFileVector, fs') :=
        splitInputFile (inputFile c) (outputDir c) (numForks c) fs in
      if decide (status = SUCCESS)
      then
        let '(forks, parent) := fork_loop c fork_ok 0 inputFileVector false in
        let '(ev, t) := wait_children parent (numForks c) waits SUCCESS in
        ([GetImplementation; Initialize (configDir c);
          SplitInputFile (inputFile c) (outputDir c) (numForks c)]
         ++ forks ++ ev, t)
      else
        ([GetImplementation; Initialize (configDir c);
          SplitInputFile (inputFile c) (outputDir c) (numForks c);
          Cerr "[ERROR] An error occurred with processing the input file."],
         Return FAILURE)
    else
      ([GetImplementation; Initialize (configDir c);
        Cerr ("[ERROR] initialize() returned error: "
              +:+ ReturnCode_text (code ret) +:+ ".")],
       Return FAILURE)
  else
    ([Cerr ("Unknown command: " +:+ actionstr); Cerr (usage_line executable)],
     Exit EXIT_FAILURE).
Proof.
  intros (H1 & H2 & H3 & H4) Hparse. destruct v as [a b c' d]. simpl in *. subst.
  unfold main. simpl. rewrite Hparse.
  by destruct (decide (mapStringToAction actionstr = VectorQ)).
Qed.

(** X11. When the action is not the one of this driver, [main] says so, prints
    the usage line and ends through [exit(EXIT_FAILURE)] without a call to
    the implementation; the flags are read first, so this is reported only
    for a command line whose flags are accepted. *)
Theorem unknown_action_usage v executable actionstr flags c fs fork_ok waits :
  versions_match v → parse_flags flags Config_default = Parsed_ok c →
  mapStringToAction actionstr ≠ VectorQ →
  main v executable (actionstr :: flags) fs fork_ok waits
  = ([Cerr ("Unknown command: " +:+ actionstr); Cerr (usage_line executable)],
     Exit EXIT_FAILURE).
Proof.
  intros Hv Hparse Ha. rewrite (main_parsed _ _ _ _ c) by done.
  by destruct (decide _).
Qed.

(** X12. When [initialize] does not return Success, [main] prints the text of
    the code it returned and returns FAILURE: the manifest is not split and
    no child is made. *)
Theorem initialize_failure_aborts v executable actionstr flags c fs fork_ok waits :
  versions_match v → parse_flags flags Config_default = Parsed_ok c →
  mapStringToAction actionstr = VectorQ →
  let ret := (initialize getImplementation (configDir c)).2 in
  code ret ≠ Success →
  main v executable (actionstr :: flags) fs fork_ok waits
  = ([GetImplementation; Initialize (configDir c);
      Cerr ("[ERROR] initialize() returned error: "
            +:+ ReturnCode_text (code ret) +:+ ".")],
     Return FAILURE).
Proof.
  intros Hv Hparse Ha ret Hret. rewrite (main_parsed _ _ _ _ c) by done.
  destruct (decide _) as [_|]; [|done]. subst ret.
  destruct (initialize getImplementation (configDir c)) as [implPtr ret].
  simpl in *. by destruct (decide (code ret = Success)).
Qed.

Lemma fork_loop_all_fail c fork_ok j shards parent :
  (∀ i, fork_ok i = false) →
  fork_loop c fork_ok j shards parent
  = (replicate (length shards) (Cerr "Problem forking"), parent).
Proof.
  intros Hfail. revert j. induction shards as [|s shards IH]; intros j; [done|].
  simpl. by rewrite Hfail, IH.
Qed.

(** X14. When every [fork] fails, [main] prints Problem forking once a shard and
    returns SUCCESS: [parent] stays false, the children are not waited for,
    and [exitStatus] still has its initial value. *)
Theorem no_child_reports_success v executable actionstr flags c fs fork_ok waits
    shards fs' :
  versions_match v → parse_flags flags Config_default = Parsed_ok c →
  mapStringToAction actionstr = VectorQ →
  code (initialize getImplementation (configDir c)).2 = Success →
  splitInputFile (inputFile c) (outputDir c) (numForks c) fs = (SUCCESS, shards, fs') →
  (∀ i, fork_ok i = false) →
  main v executable (actionstr :: flags) fs fork_ok waits
  = ([GetImplementation; Initialize (configDir c);
      SplitInputFile (inputFile c) (outputDir c) (numForks c)]
     ++ replicate (length shards) (Cerr "Problem forking"),
     Return SUCCESS).
Proof.
  intros Hv Hparse Ha Hinit Hsplit Hfail. rewrite (main_parsed _ _ _ _ c) by done.
  destruct (decide _) as [_|]; [|done].
  destruct (initialize getImplementation (configDir c)) as [implPtr ret].
  simpl in Hinit. destruct (decide (code ret = Success)) as [_|]; [|done].
  rewrite Hsplit. destruct (decide (SUCCESS = SUCCESS)) as [_|]; [|done].
  rewrite fork_loop_all_fail by done. simpl. by rewrite app_nil_r.
Qed.

Lemma fork_loop_forked c fork_ok j shards parent i shard log :
  Forked i shard log ∈ (fork_loop c fork_ok j shards parent).1 →
  (j ≤ i)%nat ∧ shards !! (i - j)%nat = Some shard
  ∧ log = log_path c i ∧ fork_ok i = true.
Proof.
  revert j parent. induction shards as [|s shards IH]; intros j parent Hin.
  - by apply elem_of_nil in Hin.
  - simpl in Hin. destruct (fork_ok j) eqn:Hj.
    + destruct (fork_loop c fork_ok (S j) shards true) as [ev p] eqn:Hloop.
      simpl in Hin. apply elem_of_cons in Hin as [Heq|Hin].
      * injection Heq as -> -> ->. by rewrite Nat.sub_diag.
      * pose proof (IH (S j) true) as IH'. rewrite Hloop in IH'.
        destruct (IH' Hin) as (Hle & Hshard & Hlog & Hok).
        split; [lia|]. split; [|done].
        by replace (i - j)%nat with (S (i - S j)) by lia.
    + destruct (fork_loop c fork_ok (S j) shards parent) as [ev p] eqn:Hloop.
      simpl in Hin. apply elem_of_cons in Hin as [?|Hin]; [done|].
      pose proof (IH (S j) parent) as IH'. rewrite Hloop in IH'.
      destruct (IH' Hin) as (Hle & Hshard & Hlog & Hok).
      split; [lia|]. split; [|done].
      by replace (i - j)%nat with (S (i - S j)) by lia.
Qed.

Lemma wait_loop_no_fork n waits exitStatus i shard log :
  Forked i shard log ∉ (wait_loop n waits exitStatus).1.
Proof.
  revert waits exitStatus. induction n as [|n IH]; intros waits exitStatus.
  - simpl. apply not_elem_of_nil.
  - simpl. destruct waits as [|[cpid w] waits]; [apply not_elem_of_nil|].
    destruct w.
    + specialize (IH waits status). destruct (wait_loop n waits status). simpl in *.
      by apply not_elem_of_cons.
    + specialize (IH waits FAILURE). destruct (wait_loop n waits FAILURE). simpl in *.
      apply not_elem_of_cons. split; [done|]. by apply not_elem_of_cons.
    + specialize (IH waits FAILURE). destruct (wait_loop n waits FAILURE). simpl in *.
      apply not_elem_of_cons. split; [done|]. by apply not_elem_of_cons.
Qed.

(** X13. [main] makes a child only after the version gate is passed, the command
    line is accepted with the action VectorQ, [initialize] has returned
    Success and [splitInputFile] has returned SUCCESS; the child is for one of
    the shards that [splitInputFile] returned, and its log is the one of the
    shard's index. *)
Theorem fork_requires_setup v executable args fs fork_ok waits i shard log :
  Forked i shard log ∈ (main v executable args fs fork_ok waits).1 →
  versions_match v
  ∧ ∃ actionstr flags c shards fs',
      args = actionstr :: flags
      ∧ parse_flags flags Config_default = Parsed_ok c
      ∧ mapStringToAction actionstr = VectorQ
      ∧ code (initialize getImplementation (configDir c)).2 = Success
      ∧ splitInputFile (inputFile c) (outputDir c) (numForks c) fs
        = (SUCCESS, shards, fs')
      ∧ shards !! i = Some shard
      ∧ log = log_path c i
      ∧ fork_ok i = true.
Proof.
  intros Hin.
  assert (Hcerr : ∀ line, Forked i shard log ∉ [Cerr line])
    by (intros line H; by apply list_elem_of_singleton in H).
  assert (Hv : versions_match v).
  { destruct (decide (FRVT_STRUCTS_MAJOR_VERSION v = currStructsMajorVersion
                      ∧ FRVT_STRUCTS_MINOR_VERSION v = currStructsMinorVersion
                      ∧ API_MAJOR_VERSION v = currAPIMajorVersion
                      ∧ API_MINOR_VERSION v = currAPIMinorVersion)) as [Hv|Hv];
      [done|].
    destruct (version_gate_aborts v executable args fs fork_ok waits Hv)
      as [line Hmain]. rewrite Hmain in Hin. by destruct (Hcerr line). }
  split; [done|].
  destruct args as [|actionstr flags].
  { rewrite main_versions_match in Hin by done.
    by destruct (Hcerr (usage_line executable)). }
  destruct (parse_flags flags Config_default) as [c|flag|] eqn:Hparse.
  - rewrite (main_parsed _ _ _ _ c) in Hin by done.
    destruct (decide (mapStringToAction actionstr = VectorQ)) as [Ha|];
      [|simpl in Hin; repeat (apply elem_of_cons in Hin as [?|Hin]; [done|]);
       by apply elem_of_nil in Hin].
    destruct (initialize getImplementation (configDir c)) as [implPtr ret] eqn:Hi.
    destruct (decide (code ret = Success)) as [Hret|]; [|simpl in Hin; repeat (apply elem_of_cons in Hin as [?|Hin]; [done|]);
       by apply elem_of_nil in Hin].
    destruct (splitInputFile (inputFile c) (outputDir c) (numForks c) fs)
      as [[status shards] fs'] eqn:Hsplit.
    destruct (decide (status = SUCCESS)) as [->|]; [|simpl in Hin; repeat (apply elem_of_cons in Hin as [?|Hin]; [done|]);
       by apply elem_of_nil in Hin].
    destruct (fork_loop c fork_ok 0 shards false) as [forks parent] eqn:Hforks.
    destruct (wait_children parent (numForks c) waits SUCCESS) as [ev t] eqn:Hwait.
    simpl in Hin.
    exists actionstr, flags, c, shards, fs'.
    repeat (apply elem_of_cons in Hin as [?|Hin]; [done|]).
    apply elem_of_app in Hin as [Hin|Hin].
    + pose proof (fork_loop_forked c fork_ok 0 shards false i shard log) as Hf.
      rewrite Hforks in Hf. destruct (Hf Hin) as (_ & Hshard & Hlog & Hok).
      rewrite Nat.sub_0_r in Hshard. repeat split; try done. by rewrite Hi.
    + exfalso. unfold wait_children in Hwait. destruct parent.
      * pose proof (wait_loop_no_fork (Z.to_nat (numForks c)) waits SUCCESS
                      i shard log) as Hw.
        destruct (wait_loop _ _ _) as [ev' r]. injection Hwait as <- _. done.
      * injection Hwait as <- _. by apply elem_of_nil in Hin.
  - rewrite main_versions_match, Hparse in Hin by done.
    simpl in Hin. repeat (apply elem_of_cons in Hin as [?|Hin]; [done|]).
    by apply elem_of_nil in Hin.
  - rewrite main_versions_match, Hparse in Hin by done.
    by apply elem_of_nil in Hin.
Qed.

(** ** main: the version gate *)

(** X8. Whenever a version pair is not the expected one, [main] returns FAILURE
    after one line on [cerr] and nothing else, whatever the command line and
    the files; the pair of frvt_structs.h is checked first, so when both
    pairs differ only that one is reported. *)
Theorem version_gate_first v executable args fs fork_ok waits :
  ¬ versions_match v →
  main v executable args fs fork_ok waits
  = ([Cerr (if decide (FRVT_STRUCTS_MAJOR_VERSION v = currStructsMajorVersion
                       ∧ FRVT_STRUCTS_MINOR_VERSION v = currStructsMinorVersion)
            then api_version_message v else structs_version_message v)],
     Return FAILURE).
Proof.
  intros Hv. unfold main.
  destruct (decide (FRVT_STRUCTS_MAJOR_VERSION v = currStructsMajorVersion
                    ∧ FRVT_STRUCTS_MINOR_VERSION v = currStructsMinorVersion))
    as [[H1 H2]|Hs].
  - rewrite !bool_decide_eq_true_2 by done. simpl.
    destruct (bool_decide (API_MAJOR_VERSION v = currAPIMajorVersion)) eqn:H3;
      [apply bool_decide_eq_true in H3|done].
    destruct (bool_decide (API_MINOR_VERSION v = currAPIMinorVersion)) eqn:H4;
      [apply bool_decide_eq_true in H4|done].
    by destruct Hv.
  - destruct (bool_decide (FRVT_STRUCTS_MAJOR_VERSION v = currStructsMajorVersion))
      eqn:H1; [apply bool_decide_eq_true in H1|done].
    destruct (bool_decide (FRVT_STRUCTS_MINOR_VERSION v = currStructsMinorVersion))
      eqn:H2; [apply bool_decide_eq_true in H2|done].
    by destruct Hs.
Qed.

(** ** main: the logs of the shards *)

Lemma to_string_inj z z' : to_string z = to_string z' → z = z'.
Proof.
  unfold to_string. intros Heq. apply DecimalZ.to_int_inj.
  assert (Hnn : ∀ n, Z.to_int n ≠ Decimal.Pos Decimal.Nil
                     ∧ Z.to_int n ≠ Decimal.Neg Decimal.Nil).
  { intros [|p|p]; simpl; split; try done; intros [= H];
      by apply (DecimalPos.Unsigned.to_uint_nonnil p). }
  assert (Hsome : Some (Z.to_int z) = Some (Z.to_int z')); [|by injection Hsome].
  rewrite <- (NilZero.isi (Z.to_int z)), <- (NilZero.isi (Z.to_int z'));
    try apply Hnn. by rewrite Heq.
Qed.

(** X15. Two shards never have the same log: the paths that [main] gives to the
    logs of different shards are different. *)
Theorem log_paths_differ c i j : i ≠ j → log_path c i ≠ log_path c j.
Proof.
  unfold log_path. intros Hne Heq.
  do 4 apply (inj (String.append _)) in Heq.
  apply to_string_inj in Heq. lia.
Qed.

(** ** main: the children reaped *)

(** X16. When [numForks] children are reaped, [main] returns what the last of
    them left in [exitStatus]: its exit status if it exited, FAILURE if not.
    What the children reaped before did has no part in it. *)
Theorem last_child_decides ws cpid w exitStatus :
  (wait_children true (Z.of_nat (S (length ws))) (ws ++ [(cpid, w)]) exitStatus).2
  = Return (status_of w).
Proof.
  unfold wait_children. rewrite Nat2Z.id.
  pose proof (wait_loop_last ws cpid w exitStatus) as Hlast.
  destruct (wait_loop (S (length ws)) (ws ++ [(cpid, w)]) exitStatus) as [ev r].
  simpl in *. by subst.
Qed.

(** X17. Every child that the loop reaps and that was killed by a signal is
    reported on [cerr], with its pid and the signal. *)
Theorem signals_reported n waits exitStatus cpid sig :
  (cpid, W_SIGNALED sig) ∈ take n waits →
  Cerr (signal_message cpid sig) ∈ (wait_loop n waits exitStatus).1.
Proof.
  revert waits exitStatus. induction n as [|n IH]; intros waits exitStatus Hin.
  - rewrite take_0 in Hin. by apply elem_of_nil in Hin.
  - destruct waits as [|[p w] waits]; [by apply elem_of_nil in Hin|].
    rewrite firstn_cons in Hin. cbn [wait_loop].
    apply elem_of_cons in Hin as [Heq|Hin].
    + injection Heq as <- <-.
      destruct (wait_loop n waits FAILURE). simpl.
      apply list_elem_of_further, list_elem_of_here.
    + destruct w.
      * specialize (IH waits status Hin). destruct (wait_loop n waits status).
        by apply list_elem_of_further.
      * specialize (IH waits FAILURE Hin). destruct (wait_loop n waits FAILURE).
        by do 2 apply list_elem_of_further.
      * specialize (IH waits FAILURE Hin). destruct (wait_loop n waits FAILURE).
        by do 2 apply list_elem_of_further.
Qed.

(** ** The records of a shard *)

(** X6. The records of a shard are the successive groups of three tokens of
    its text, wherever its lines end: record [k] is made of tokens [3k],
    [3k+1] and [3k+2], and one or two tokens left at the end make no
    record. *)
Theorem read_records_lookup lines k r :
  read_records lines !! k = Some r ↔
  tokens lines !! (3 * k)%nat = Some (id r)
  ∧ tokens lines !! (3 * k + 1)%nat = Some (imagePath r)
  ∧ tokens lines !! (3 * k + 2)%nat = Some (desc r).
Proof. apply triples_lookup. Qed.

(** ** Reading the log back *)

(** X7. The log can be read back: when the names of the measures and the
    values that [std::to_string] gives for a [double] hold no white space,
    the header, split at white space, is the list of the column names, and
    the line of every record evaluated, split at white space, is the list of
    its columns, so it has as many fields as the header. *)
Theorem log_reads_back implPtr inF outL fs lines :
  fs !! inF = Some lines → can_create outL = true → inF ≠ outL →
  Forall token (measure_name <$> measures) →
  (∀ v, token (double_to_string v)) →
  let run := runQuality implPtr inF outL VectorQ fs in
  words <$> logStream (final run)
  = column_names :: (columns <$> evaluated (calls (final run)))
  ∧ Forall (λ fields, length fields = length column_names)
      (words <$> logStream (final run)).
Proof.
  intros Hin Hout Hne Hnames Hdouble run.
  destruct (runQuality_run implPtr inF outL fs lines Hin Hout Hne)
    as (Hrec & Hread & Hlog & _).
  fold run in Hrec, Hread, Hlog.
  assert (Hcols : ∀ c, c ∈ calls (final run) → Forall token (columns c)).
  { intros c Hc.
    assert (Hr : call_record c ∈ read_records lines).
    { rewrite <- (take_drop (length (calls (final run))) (read_records lines)).
      apply elem_of_app. left. rewrite <- Hrec. by apply list_elem_of_fmap_2. }
    apply read_records_token in Hr as (Hid & Hpath & _).
    unfold columns. apply Forall_app. split.
    - repeat apply Forall_cons_2; try apply Forall_nil_2; try done;
        apply to_string_token.
    - apply Forall_fmap, Forall_forall. intros e _. unfold measure_cell. simpl.
      destruct (_ !! e); [apply Hdouble | done]. }
  assert (Hhead : words header_line = column_names).
  { rewrite header_line_columns. apply words_trailed.
    unfold column_names. apply Forall_app. split; [|done].
    repeat apply Forall_cons_2; by try apply Forall_nil_2. }
  assert (Hrows : words <$> (row_of_call <$> evaluated (calls (final run)))
                  = columns <$> evaluated (calls (final run))).
  { rewrite <- list_fmap_compose. apply list_fmap_ext. intros k c Hk. simpl.
    rewrite row_of_call_columns. apply words_joined, Hcols.
    apply list_elem_of_lookup_2 in Hk. unfold evaluated in Hk.
    by apply list_elem_of_filter in Hk as [_ Hk]. }
  assert (Hall : words <$> logStream (final run)
                 = column_names :: (columns <$> evaluated (calls (final run)))).
  { by rewrite Hlog, fmap_cons, Hhead, Hrows. }
  split; [done|]. rewrite Hall. constructor; [done|].
  apply Forall_fmap, Forall_forall. intros c _.
  unfold columns, column_names. cbn [app length compose]. by rewrite !length_fmap.
Qed.

(** ** Status codes *)

(** X18. The integer written in the third column of a line determines the
    status code that the implementation returned: two different codes are
    written differently. *)
Theorem logged_code_identifies_status rc rc' :
  rc ≠ rc' → to_string (underlying rc) ≠ to_string (underlying rc').
Proof.
  intros Hne Heq. apply to_string_inj in Heq. by destruct rc, rc'.
Qed.

(** X19. [operator<<] prints a different text for each code, and for none of
    them the text of its default branch. *)
Theorem ReturnCode_text_inj rc rc' :
  (ReturnCode_text rc = ReturnCode_text rc' → rc = rc')
  ∧ ReturnCode_text rc ≠ "Undefined error".
Proof. split; [by destruct rc, rc'|by destruct rc]. Qed.

(** ** Image::size *)

(** X20. For an image whose fields have values of their types, [size()] is
    undefined exactly when [width * height], or its product by [depth / 8],
    is more than [INT_MAX]; otherwise it is [width * height * (depth / 8)]:
    the number of bytes that the documentation of [data] gives, WH for a
    depth of 8 and 3WH for a depth of 24, and WH times the whole number of
    bytes in [depth] for any other depth (nothing for less than 8 bits). *)
Theorem size_bytes (i : FIVE.Image) :
  FIVE.well_typed i →
  let w := FIVE.width i in
  let h := FIVE.height i in
  let d := FIVE.depth i in
  (FIVE.size i = None ↔ INT_MAX < w * h ∨ INT_MAX < w * h * (d `div` 8))
  ∧ (∀ n, FIVE.size i = Some n → n = w * h * (d `div` 8) ∧ 0 ≤ n ≤ INT_MAX)
  ∧ (d = 8 → w * h ≤ INT_MAX → FIVE.size i = Some (w * h))
  ∧ (d = 24 → 3 * (w * h) ≤ INT_MAX → FIVE.size i = Some (3 * (w * h)))
  ∧ (d < 8 → w * h ≤ INT_MAX → FIVE.size i = Some 0).
Proof.
  intros (Hw & Hh & Hd) w h d. unfold FIVE.size, int_mul. fold w h d.
  assert (Hq : d ÷ 8 = d `div` 8) by (apply Z.quot_div_nonneg; lia).
  assert (Hd8 : 0 ≤ d `div` 8) by (apply Z.div_pos; lia).
  assert (Hwh : 0 ≤ w * h) by nia.
  assert (Hn : 0 ≤ w * h * (d `div` 8)) by nia.
  rewrite Hq. unfold INT_MIN, INT_MAX in *.
  repeat split.
  - repeat case_decide; try done; intros _; lia.
  - repeat case_decide; try done; lia.
  - repeat case_decide; congruence.
  - repeat case_decide; try done. assert (n = w * h * (d `div` 8)) by congruence. lia.
  - repeat case_decide; try done. assert (n = w * h * (d `div` 8)) by congruence. lia.
  - intros Hd' Hfit. rewrite Hd'. change (8 `div` 8) with 1.
    rewrite decide_True by lia. rewrite decide_True by lia. f_equal. lia.
  - intros Hd' Hfit. rewrite Hd'. change (24 `div` 8) with 3.
    rewrite decide_True by lia. rewrite decide_True by lia. f_equal. lia.
  - intros Hd' Hfit. rewrite (Z.div_small d 8) by lia.
    rewrite decide_True by lia. rewrite decide_True by lia. f_equal. lia.
Qed.

End Properties.

(** * The properties on the concrete harness *)

#[local] Existing Instance Demo.environment.
#[local] Existing Instance Demo.implementation.

(** Shard 1 has five records and the implementation returns the sentinel
    on the third. *)
Lemma not_implemented_stops_shard_witness :
  let run := Demo.run 1 in
  length (calls (final run)) = 3%nat
  ∧ logStream (final run)
    = header_line :: (row_of_call <$> take 2 (calls (final run)))
  ∧ call_record <$> calls (final run)
    = take 3 (read_records (default [] (Demo.fs !! "output/input.txt.1")))
  ∧ files run !! "output/input.txt.1" = None
  ∧ files run !! "output/stem.log.1" = None
  ∧ outcome run = Return NOT_IMPLEMENTED
  ∧ outcome run ≠ Return SUCCESS
  ∧ outcome run ≠ Return FAILURE.
Proof.
  refine (not_implemented_stops_shard Demo.implPtr "output/input.txt.1"
            "output/stem.log.1" Demo.fs 2 Demo.call_b3 _ _ _ _ _);
    by vm_compute.
Defined.

(** The second record of shard 0 has no face: status 8; the third record
    is evaluated after it. With the implementation that refuses that image
    and reports an error of its own for the others, the statuses are 15, 3
    and 15, and the third record is evaluated all the same. *)
Lemma failure_status_logged_witness :
  (let run := Demo.run 0 in
   logStream (final run) !! 2%nat = Some "a2 noface.png 8 -1 -1 -1 -1 NA NA"
   ∧ take 3 (words "a2 noface.png 8 -1 -1 -1 -1 NA NA") = ["a2"; "noface.png"; "8"]
   ∧ ∃ c', calls (final run) !! 2%nat = Some c'
           ∧ call_record c'
             = {| id := "a3"; imagePath := "face3.png"; desc := "iso" |})
  ∧ (let run := Refusing.run in
     logStream (final run) !! 1%nat = Some "a1 face1.png 15 -1 -1 -1 -1 NA NA"
     ∧ logStream (final run) !! 2%nat = Some "a2 noface.png 3 -1 -1 -1 -1 NA NA"
     ∧ take 3 (words "a2 noface.png 3 -1 -1 -1 -1 NA NA") = ["a2"; "noface.png"; "3"]
     ∧ ∃ c', calls (final run) !! 2%nat = Some c'
             ∧ call_record c'
               = {| id := "a3"; imagePath := "face3.png"; desc := "iso" |}).
Proof.
  split.
  - destruct (failure_status_logged Demo.implPtr "output/input.txt.0"
                "output/stem.log.0" Demo.fs 1 Demo.call_a2)
      as (Hrow & _ & _ & _ & Hwords & Hnext); [by vm_compute ..|].
    split; [exact Hrow|].
    split; [refine (eq_trans _ (eq_trans Hwords _)); by vm_compute|].
    destruct (Hnext {| id := "a3"; imagePath := "face3.png"; desc := "iso" |})
      as [Hcall|[Hunreadable _]]; [by vm_compute|exact Hcall|].
    destruct Hunreadable. by eexists.
  - destruct (@failure_status_logged Demo.environment Refusing.implementation
                Refusing.implPtr "output/input.txt.0" "output/stem.log.0"
                Demo.fs 0 Refusing.call_a1)
      as (Hrow1 & _); [by vm_compute ..|].
    destruct (@failure_status_logged Demo.environment Refusing.implementation
                Refusing.implPtr "output/input.txt.0" "output/stem.log.0"
                Demo.fs 1 Refusing.call_a2)
      as (Hrow & _ & _ & _ & Hwords & Hnext); [by vm_compute ..|].
    split; [exact Hrow1|]. split; [exact Hrow|].
    split; [refine (eq_trans _ (eq_trans Hwords _)); by vm_compute|].
    destruct (Hnext {| id := "a3"; imagePath := "face3.png"; desc := "iso" |})
      as [Hcall|[Hunreadable _]]; [by vm_compute|exact Hcall|].
    destruct Hunreadable. by eexists.
Defined.

(** The log of shard 0. *)
Lemma log_layout_witness :
  let run := Demo.run 0 in
  logStream (final run)
  = ["id image returnCode bb_xleft bb_ytop bb_width bb_height measure0 measure1 ";
     "a1 face1.png 0 10 20 30 40 7 NA";
     "a2 noface.png 8 -1 -1 -1 -1 NA NA";
     "a3 face3.png 0 10 20 30 40 7 NA"]
  ∧ files run !! "output/stem.log.0" = Some (logStream (final run)).
Proof.
  destruct (log_layout Demo.implPtr "output/input.txt.0" "output/stem.log.0" Demo.fs
              ["a1 face1.png mugshot"; "a2 noface.png wild"; "a3 face3.png iso"])
    as (Hlog & _ & _ & _ & _ & Hfile); [by vm_compute ..|].
  split; [etrans; [exact Hlog | by vm_compute] | apply Hfile; by vm_compute].
Defined.

(** Shard 0 is processed to its end, and shard 2 kills its process: the
    manifest is as it was after both. *)
Lemma cleanup_on_return_witness :
  (let run := Demo.run 0 in
   files run !! "output/input.txt.0" = None
   ∧ files run !! "output/stem.log.0" = Some (logStream (final run))
   ∧ files run !! "manifest.txt" = Demo.fs !! "manifest.txt")
  ∧ files (Demo.run 2) !! "manifest.txt" = Demo.fs !! "manifest.txt".
Proof.
  split.
  - destruct (cleanup_on_return Demo.implPtr "output/input.txt.0"
                "output/stem.log.0" "manifest.txt" Demo.fs)
      as (Hman & Hret); [by vm_compute ..|].
    destruct (Hret 0) as (Hin & _ & Hlog); [by vm_compute|].
    split; [exact Hin|]. split; [|exact Hman].
    apply Hlog. clear. intros Hex. apply Exists_exists in Hex as (c & Hc & Hs).
    vm_compute in Hc. unfold sentinel in Hs.
    repeat (apply elem_of_cons in Hc as [->|Hc]; [by vm_compute in Hs|]).
    by apply elem_of_nil in Hc.
  - destruct (cleanup_on_return Demo.implPtr "output/input.txt.2"
                "output/stem.log.2" "manifest.txt" Demo.fs)
      as (Hman & _); [by vm_compute ..|].
    exact Hman.
Defined.

(** C7 as stated fails on a command line that the driver accepts: with
    [-i output/stem.log.0] and the defaults for the other flags, the manifest
    is at the path that line 215 gives to the log of shard 0. [main] forks
    the child for shard 0 with the manifest as its log; the child opens it
    for writing, runs to its end and returns SUCCESS, and the manifest then
    holds the header and the lines of the log in place of its records. *)
Lemma manifest_overwritten_as_log :
  let manifest := "output/stem.log.0" in
  let records := ["a1 face1.png mugshot"; "a2 noface.png wild"] in
  let fs : gmap string (list string) := {[ manifest := records ]} in
  let c := {| configDir := "config"; outputDir := "output";
              outputFileStem := "stem"; inputFile := manifest; numForks := 1 |} in
  let after_split := (splitInputFile manifest "output" 1 fs).2 in
  let run := child Demo.implPtr c VectorQ 0 "output/input.txt.0" after_split in
  main Demo.versions "validate_quality" ["vectorQuality"; "-i"; manifest] fs
    (λ _, true) [(101, W_EXITED 0)]
  = ([GetImplementation; Initialize "config";
      SplitInputFile manifest "output" 1;
      Forked 0 "output/input.txt.0" manifest; Waited 101],
     Return SUCCESS)
  ∧ parse_flags ["-i"; manifest] Config_default = Parsed_ok c
  ∧ log_path c 0 = manifest
  ∧ after_split !! manifest = Some records
  ∧ outcome run = Return SUCCESS
  ∧ files run !! manifest
    = Some ["id image returnCode bb_xleft bb_ytop bb_width bb_height measure0 measure1 ";
            "a1 face1.png 0 10 20 30 40 7 NA";
            "a2 noface.png 8 -1 -1 -1 -1 NA NA"]
  ∧ files run !! manifest ≠ fs !! manifest.
Proof. repeat split; by vm_compute. Qed.

(** The second image of shard 2 cannot be decoded. *)
Lemma decode_failure_kills_witness :
  let run := Demo.run 2 in
  outcome run = Signal SIGTERM
  ∧ (∀ v, outcome run ≠ Return v)
  ∧ length (logStream (final run)) = 2%nat
  ∧ files run !! "output/input.txt.2"
    = Some ["c1 face1.png iso"; "c2 corrupt.png iso"; "c3 face3.png iso"].
Proof.
  destruct (decode_failure_kills Demo.implPtr "output/input.txt.2" "output/stem.log.2"
              Demo.fs
              ["c1 face1.png iso"; "c2 corrupt.png iso"; "c3 face3.png iso"]
              1 {| id := "c2"; imagePath := "corrupt.png"; desc := "iso" |})
    as (Hsig & Hret & _ & _ & Hlen & Hin).
  - by vm_compute.
  - by vm_compute.
  - by vm_compute.
  - by vm_compute.
  - intros [image Himage]. by vm_compute in Himage.
  - intros j r' Hj Hr'. destruct j as [|j]; [|lia].
    vm_compute in Hr'. injection Hr' as <-. by eexists.
  - intros Hex. apply Exists_exists in Hex as (c & Hc & Hs).
    vm_compute in Hc. apply list_elem_of_singleton in Hc as ->. by vm_compute in Hs.
  - done.
Defined.

(** Shard 3 is empty. *)
Lemma empty_shard_witness :
  let run := Demo.run 3 in
  logStream (final run) = [header_line]
  ∧ calls (final run) = []
  ∧ files run !! "output/input.txt.3" = None
  ∧ files run !! "output/stem.log.3" = Some [header_line]
  ∧ ret (final run) = ReturnStatus_default
  ∧ code (ret (final run)) = UnknownError
  ∧ code (ret (final run)) ≠ NotImplemented
  ∧ outcome run = Return SUCCESS.
Proof.
  refine (empty_shard Demo.implPtr "output/input.txt.3" "output/stem.log.3" Demo.fs []
            _ _ _ _); by vm_compute.
Defined.

(** The manifest of five lines in two shards. *)
Lemma split_complete_witness :
  ∃ fs' shards,
    splitInputFile "manifest.txt" "output" 2 Demo.fs
    = (SUCCESS, ["output/input.txt.0"; "output/input.txt.1"], fs')
    ∧ concat shards = ["a1 face1.png mugshot"; "a2 noface.png wild";
                       "a3 face3.png iso"; "a4 face4.png iso";
                       "a5 face5.png wild"]
    ∧ sum_list (length <$> shards) = 5%nat.
Proof.
  destruct (split_complete "manifest.txt" "output" 2 Demo.fs
              ["a1 face1.png mugshot"; "a2 noface.png wild"; "a3 face3.png iso";
               "a4 face4.png iso"; "a5 face5.png wild"])
    as (fs' & shards & Hsplit & _ & _ & Hconcat & Hsum & _).
  - lia.
  - by vm_compute.
  - by vm_compute.
  - apply (bool_decide_unpack _). by vm_compute.
  - exists fs', shards. split; [exact Hsplit|]. split; [exact Hconcat | exact Hsum].
Defined.

(** An argument that is no flag, after a flag and its value. *)
Lemma usage_on_refused_command_line_witness :
  ∃ ev, Demo.harness ["vectorQuality"; "-i"; "manifest.txt"; "-x"] []
        = (ev, Exit EXIT_FAILURE)
      ∧ last ev = Some (Cerr (usage_line "validate_quality"))
      ∧ Forall (λ e, ∃ line, e = Cerr line) ev.
Proof.
  apply usage_on_refused_command_line.
  - by vm_compute.
  - right. exists "vectorQuality", [("-i", "manifest.txt")], "-x", [].
    split; [reflexivity|]. split.
    + by apply (bool_decide_unpack _).
    + by apply (bool_decide_unpack _).
Defined.

(** C9 as stated fails on the command line that gives the action and no
    flag: none of the five flags is there, not even the input manifest, and
    yet [main] prints no usage line and does not end through [exit]; it takes
    the defaults, gets the implementation and initializes it with the
    directory config. *)
Lemma missing_flags_are_defaulted :
  let args := ["vectorQuality"] in
  let ev := (Demo.harness args []).1 in
  let t := (Demo.harness args []).2 in
  (∀ flag, flag ∈ known_flags → flag ∉ args)
  ∧ (Cerr (usage_line "validate_quality") ∉ ev)
  ∧ t ≠ Exit EXIT_FAILURE
  ∧ GetImplementation ∈ ev
  ∧ Initialize "config" ∈ ev.
Proof.
  intros args ev t. split.
  - intros flag Hflag Hin. apply list_elem_of_singleton in Hin as ->.
    revert Hflag. apply (bool_decide_unpack _). by vm_compute.
  - repeat split; apply (bool_decide_unpack _); by vm_compute.
Qed.

(** The whole driver with two shards, the child reaped first killed by
    SIGTERM and the other one successful: the signal is reported on [cerr]
    and [main] returns SUCCESS. *)
Example harness_forgets_killed_child :
  Demo.harness ["vectorQuality"; "-i"; "manifest.txt"; "-t"; "2"]
    [(101, W_SIGNALED SIGTERM); (102, W_EXITED 0)]
  = ([GetImplementation; Initialize "config";
      SplitInputFile "manifest.txt" "output" 2;
      Forked 0 "output/input.txt.0" "output/stem.log.0";
      Forked 1 "output/input.txt.1" "output/stem.log.1";
      Waited 101; Cerr "PID 101 exited due to signal 15"; Waited 102],
     Return SUCCESS).
Proof. by vm_compute. Qed.

(** * The further properties on the concrete harness *)

(** There is no shard 4. *)
Lemma open_failure_kills_witness :
  let run := Demo.run 4 in
  outcome run = Signal SIGTERM
  ∧ files run = Demo.fs
  ∧ calls (final run) = []
  ∧ logStream (final run) = []
  ∧ cerr (final run) = ["[ERROR] Failed to open stream for output/input.txt.4."].
Proof.
  destruct (open_failure_kills Demo.implPtr "output/input.txt.4"
              "output/stem.log.4" VectorQ Demo.fs)
    as (Hsig & Hfiles & Hcalls & Hlog & Hshard & _); [left; by vm_compute|].
  split; [exact Hsig|]. split; [exact Hfiles|]. split; [exact Hcalls|].
  split; [exact Hlog|]. apply Hshard. by vm_compute.
Defined.

(** Shard 2 kills its process; the manifest is as it was. *)
Lemma other_files_untouched_witness :
  files (Demo.run 2) !! "manifest.txt" = Demo.fs !! "manifest.txt".
Proof.
  refine (other_files_untouched Demo.implPtr "output/input.txt.2"
            "output/stem.log.2" VectorQ Demo.fs "manifest.txt" _ _); by vm_compute.
Defined.

(** Shard 0 and shard 2 with the action that is not VectorQ: the first is
    gone through, the second kills its process at corrupt.png. *)
Lemma other_action_writes_nothing_witness :
  (let run := runQuality Demo.implPtr "output/input.txt.0" "output/stem.log.0"
                Demo.no_action Demo.fs in
   calls (final run) = []
   ∧ logStream (final run) = []
   ∧ outcome run = Return SUCCESS
   ∧ cerr (final run) = []
   ∧ files run !! "output/input.txt.0" = None
   ∧ files run !! "output/stem.log.0" = Some [])
  ∧ (let run := runQuality Demo.implPtr "output/input.txt.2" "output/stem.log.2"
                  Demo.no_action Demo.fs in
     calls (final run) = []
     ∧ logStream (final run) = []
     ∧ outcome run = Signal SIGTERM
     ∧ cerr (final run) = ["[ERROR] Failed to load image file: corrupt.png."]
     ∧ files run !! "output/input.txt.2"
       = Some ["c1 face1.png iso"; "c2 corrupt.png iso"; "c3 face3.png iso"]
     ∧ files run !! "output/stem.log.2" = Some []).
Proof.
  split.
  - destruct (other_action_writes_nothing Demo.implPtr "output/input.txt.0"
                "output/stem.log.0" Demo.no_action Demo.fs)
      as (Hcalls & Hlog & _ & _ & Hopen); [by vm_compute ..|].
    destruct (Hopen ["a1 face1.png mugshot"; "a2 noface.png wild";
                     "a3 face3.png iso"]) as [Hall _]; [by vm_compute ..|].
    destruct Hall as (Hout & Hcerr & Hshard & Hfile).
    { unfold readable. apply (bool_decide_unpack _). by vm_compute. }
    split; [exact Hcalls|]. split; [exact Hlog|]. split; [exact Hout|].
    split; [exact Hcerr|]. split; [exact Hshard | exact Hfile].
  - destruct (other_action_writes_nothing Demo.implPtr "output/input.txt.2"
                "output/stem.log.2" Demo.no_action Demo.fs)
      as (Hcalls & Hlog & _ & _ & Hopen); [by vm_compute ..|].
    destruct (Hopen ["c1 face1.png iso"; "c2 corrupt.png iso"; "c3 face3.png iso"])
      as [_ Hfirst]; [by vm_compute ..|].
    destruct (Hfirst [{| id := "c1"; imagePath := "face1.png"; desc := "iso" |}]
                {| id := "c2"; imagePath := "corrupt.png"; desc := "iso" |}
                [{| id := "c3"; imagePath := "face3.png"; desc := "iso" |}])
      as (Hout & Hcerr & Hshard & Hfile).
    { by vm_compute. }
    { unfold readable. apply (bool_decide_unpack _). by vm_compute. }
    { intros [image Himage]. by vm_compute in Himage. }
    split; [exact Hcalls|]. split; [exact Hlog|]. split; [exact Hout|].
    split; [exact Hcerr|]. split; [exact Hshard | exact Hfile].
Defined.

(** Shard 0: three records, three calls, four lines. *)
Lemma all_records_evaluated_witness :
  let run := Demo.run 0 in
  outcome run = Return SUCCESS
  ∧ length (logStream (final run)) = 4%nat
  ∧ (λ c, id (call_record c)) <$> calls (final run) = ["a1"; "a2"; "a3"].
Proof.
  destruct (all_records_evaluated Demo.implPtr "output/input.txt.0"
              "output/stem.log.0" Demo.fs
              ["a1 face1.png mugshot"; "a2 noface.png wild"; "a3 face3.png iso"])
    as (Hout & _ & _ & Hlen & Hids & _).
  - by vm_compute.
  - by vm_compute.
  - by vm_compute.
  - unfold readable. apply (bool_decide_unpack _). by vm_compute.
  - intros Hex. apply Exists_exists in Hex as (c & Hc & Hs).
    vm_compute in Hc. unfold sentinel in Hs.
    repeat (apply elem_of_cons in Hc as [->|Hc]; [by vm_compute in Hs|]).
    by apply elem_of_nil in Hc.
  - split; [exact Hout|]. split; [exact Hlen|].
    etrans; [exact Hids | by vm_compute].
Defined.

(** Shard 2: one line on [cerr], for corrupt.png. *)
Lemma runQuality_diagnostics_witness :
  cerr (final (Demo.run 2)) = ["[ERROR] Failed to load image file: corrupt.png."].
Proof.
  destruct (runQuality_diagnostics Demo.implPtr "output/input.txt.2"
              "output/stem.log.2" Demo.fs
              ["c1 face1.png iso"; "c2 corrupt.png iso"; "c3 face3.png iso"])
    as [(v & Hret & _)|(_ & pre & r & post & _ & _ & _ & Hcerr)];
    [by vm_compute ..| |].
  - by vm_compute in Hret.
  - by vm_compute.
Defined.

(** A flag given twice, and a value that looks like a flag. *)
Lemma flags_accepted_witness :
  parse_flags ["-c"; "first"; "-t"; "3"; "-c"; "-x"] Config_default
  = Parsed_ok {| configDir := "-x"; outputDir := "output";
                 outputFileStem := "stem"; inputFile := ""; numForks := 3 |}.
Proof.
  destruct (flags_accepted [("-c", "first"); ("-t", "3"); ("-c", "-x")]
              Config_default) as (Hparse & _).
  - by apply (bool_decide_unpack _).
  - etrans; [exact Hparse | by vm_compute].
Defined.

(** The flag -i given last, without the manifest. *)
Lemma trailing_flag_undefined_witness :
  Demo.harness ["vectorQuality"; "-o"; "out"; "-i"] [] = ([], Undefined).
Proof.
  refine (trailing_flag_undefined Demo.versions "validate_quality" "vectorQuality"
            [("-o", "out")] "-i" Demo.fs (λ _, true) [] _ _ _).
  - by vm_compute.
  - by apply (bool_decide_unpack _).
  - by apply (bool_decide_unpack _).
Defined.

(** An action that the table does not know. *)
Lemma unknown_action_usage_witness :
  Demo.harness ["scalarQuality"; "-i"; "manifest.txt"] []
  = ([Cerr "Unknown command: scalarQuality";
      Cerr (usage_line "validate_quality")], Exit EXIT_FAILURE).
Proof.
  refine (unknown_action_usage Demo.versions "validate_quality" "scalarQuality"
            ["-i"; "manifest.txt"] _ Demo.fs (λ _, true) [] _ _ _);
    by vm_compute.
Defined.

(** The implementation that cannot be configured. *)
Lemma initialize_failure_aborts_witness :
  Faulty.harness ["vectorQuality"; "-i"; "manifest.txt"] []
  = ([GetImplementation; Initialize "config";
      Cerr "[ERROR] initialize() returned error: Error reading configuration files."],
     Return FAILURE).
Proof.
  refine (initialize_failure_aborts (Itf := Faulty.implementation) Demo.versions
            "validate_quality" "vectorQuality" ["-i"; "manifest.txt"]
            {| configDir := "config"; outputDir := "output";
               outputFileStem := "stem"; inputFile := "manifest.txt";
               numForks := 1 |}
            Demo.fs (λ _, true) [] _ _ _ _); by vm_compute.
Defined.

(** Two shards and no child. *)
Lemma no_child_reports_success_witness :
  main Demo.versions "validate_quality"
    ["vectorQuality"; "-i"; "manifest.txt"; "-t"; "2"] Demo.fs (λ _, false) []
  = ([GetImplementation; Initialize "config";
      SplitInputFile "manifest.txt" "output" 2;
      Cerr "Problem forking"; Cerr "Problem forking"],
     Return SUCCESS).
Proof.
  refine (no_child_reports_success Demo.versions "validate_quality" "vectorQuality"
            ["-i"; "manifest.txt"; "-t"; "2"]
            {| configDir := "config"; outputDir := "output";
               outputFileStem := "stem"; inputFile := "manifest.txt";
               numForks := 2 |}
            Demo.fs (λ _, false) []
            ["output/input.txt.0"; "output/input.txt.1"]
            (splitInputFile "manifest.txt" "output" 2 Demo.fs).2 _ _ _ _ _ _);
    by vm_compute.
Defined.

(** The child of shard 1. *)
Lemma fork_requires_setup_witness :
  versions_match Demo.versions
  ∧ ∃ actionstr flags c shards fs',
      ["vectorQuality"; "-i"; "manifest.txt"; "-t"; "2"] = actionstr :: flags
      ∧ parse_flags flags Config_default = Parsed_ok c
      ∧ mapStringToAction actionstr = VectorQ
      ∧ code (initialize getImplementation (configDir c)).2 = Success
      ∧ splitInputFile (inputFile c) (outputDir c) (numForks c) Demo.fs
        = (SUCCESS, shards, fs')
      ∧ shards !! 1%nat = Some "output/input.txt.1"
      ∧ "output/stem.log.1" = log_path c 1
      ∧ (λ _ : nat, true) 1%nat = true.
Proof.
  refine (fork_requires_setup Demo.versions "validate_quality"
            ["vectorQuality"; "-i"; "manifest.txt"; "-t"; "2"] Demo.fs (λ _, true)
            [(101, W_EXITED 0); (102, W_EXITED 0)] 1 "output/input.txt.1"
            "output/stem.log.1" _).
  apply (bool_decide_unpack _). by vm_compute.
Defined.

(** A library built with the versions that five_structs.h and frvt1N.h
    declare, 1.0 and 3.0: both pairs differ, the first is reported. *)
Lemma version_gate_first_witness :
  main {| FRVT_STRUCTS_MAJOR_VERSION := 1; FRVT_STRUCTS_MINOR_VERSION := 0;
          API_MAJOR_VERSION := 3; API_MINOR_VERSION := 0 |}
       "validate_quality" ["vectorQuality"; "-i"; "manifest.txt"] Demo.fs
       (λ _, true) []
  = ([Cerr ("[ERROR] You've compiled your library with an old version of the frvt_structs.h file: version "
            +:+ "1.0.  Please re-build with the latest version: 3.0.")],
     Return FAILURE).
Proof.
  etrans; [apply version_gate_first|reflexivity].
  intros (H1 & _). by vm_compute in H1.
Defined.

(** The logs of shards 0 and 1 with the default directory and stem. *)
Lemma log_paths_differ_witness : "output/stem.log.0" ≠ "output/stem.log.1".
Proof. refine (log_paths_differ Config_default 0 1 _). lia. Defined.

(** Three children, the second killed by SIGKILL. *)
Lemma signals_reported_witness :
  Cerr "PID 102 exited due to signal 9"
  ∈ (wait_loop 3 [(101, W_EXITED 0); (102, W_SIGNALED 9); (103, W_EXITED 0)]
       SUCCESS).1.
Proof.
  refine (signals_reported 3 _ SUCCESS 102 9 _).
  simpl. apply list_elem_of_further, list_elem_of_here.
Defined.

(** The log of shard 0, split at white space. *)
Lemma log_reads_back_witness :
  words <$> logStream (final (Demo.run 0))
  = [["id"; "image"; "returnCode"; "bb_xleft"; "bb_ytop"; "bb_width";
      "bb_height"; "measure0"; "measure1"];
     ["a1"; "face1.png"; "0"; "10"; "20"; "30"; "40"; "7"; "NA"];
     ["a2"; "noface.png"; "8"; "-1"; "-1"; "-1"; "-1"; "NA"; "NA"];
     ["a3"; "face3.png"; "0"; "10"; "20"; "30"; "40"; "7"; "NA"]].
Proof.
  destruct (log_reads_back Demo.implPtr "output/input.txt.0" "output/stem.log.0"
              Demo.fs
              ["a1 face1.png mugshot"; "a2 noface.png wild"; "a3 face3.png iso"])
    as (Hwords & _).
  - by vm_compute.
  - by vm_compute.
  - by vm_compute.
  - unfold token. apply (bool_decide_unpack _). by vm_compute.
  - apply to_string_token.
  - etrans; [exact Hwords | by vm_compute].
Defined.

(** FaceDetectionError and NotImplemented. *)
Lemma logged_code_identifies_status_witness : "8" ≠ "14".
Proof.
  refine (logged_code_identifies_status FaceDetectionError NotImplemented _).
  discriminate.
Defined.

(** A colour image of 640 by 480 pixels. *)
Lemma size_bytes_witness :
  FIVE.size {| FIVE.width := 640; FIVE.height := 480; FIVE.depth := 24;
               FIVE.data := None; FIVE.description := FIVE.StillISO;
               FIVE.illuminant := FIVE.Visible |}
  = Some 921600.
Proof.
  destruct (size_bytes {| FIVE.width := 640; FIVE.height := 480; FIVE.depth := 24;
                          FIVE.data := None; FIVE.description := FIVE.StillISO;
                          FIVE.illuminant := FIVE.Visible |})
    as (_ & _ & _ & H24 & _).
  - unfold FIVE.well_typed. simpl. lia.
  - apply H24; [reflexivity | by vm_compute].
Defined.
